(** * A key-value store with a caching proxy, TTL sweep and snapshots

    Shallow embedding of the two server programs of the repository,
    [kvs-server.go] (module [V1]) and [kvs_server.go] (module [V2]).

    - Go maps [map[string]KeyValue] are finite maps [gmap string KeyValue.t].
    - [time.Time] is a number of nanoseconds ([Z]); [time.Duration] is an
      [int64] number of nanoseconds, and [Time.Sub] saturates at its bounds.
    - Every call of [time.Now()] inside an operation reads an explicit clock
      argument [clk : nat -> Z]: the [i]-th call made by the operation
      returns [clk i].
    - [*KeyValueStore] is one shared object: the proxy's field [kvs] is the
      very store the background loops receive, so the store is a field of
      the proxy record and the loops act on the proxy record.
    - Console output ([fmt.Println], [fmt.Printf]) is not modelled. *)

From Stdlib Require Import ZArith Lia.
From stdpp Require Import gmap strings list fin_maps.

Local Open Scope string_scope.
Local Open Scope Z_scope.

(** ** Package [time] *)

Module time.

Definition Second : Z := 1000000000.

Definition minDuration : Z := - 2 ^ 63.
Definition maxDuration : Z := 2 ^ 63 - 1.

(** [Time.Sub]: the difference [t - u], or the extreme [Duration] when
    the difference does not fit in an [int64]. *)
Definition Sub (t u : Z) : Z :=
  if t - u <? minDuration then minDuration
  else if maxDuration <? t - u then maxDuration
  else t - u.

(** [time.Since t] is [time.Now().Sub(t)]. *)
Definition Since (now t : Z) : Z := Sub now t.

End time.

(** ** Data model shared by the two programs *)

Module KeyValue.
Record t := mk { Value : string; Timestamp : Z }.
End KeyValue.

Record KeyValueStore := mkKeyValueStore {
  data : gmap string KeyValue.t;
  ttl : Z
}.

Record ServerProxy := mkServerProxy {
  kvs : KeyValueStore;
  cache : gmap string KeyValue.t
}.

(** The anonymous request struct decoded by [handleConnection]. *)
Module Request.
Record t := mk { Action : string; Key : string; Value : string }.
End Request.

(** [kvs.data[key] = kv] and [delete(kvs.data, key)] on the shared store. *)
Definition store_put (s : KeyValueStore) (key : string) (kv : KeyValue.t)
  : KeyValueStore :=
  mkKeyValueStore (<[key := kv]> (data s)) (ttl s).

Definition store_del (s : KeyValueStore) (key : string) : KeyValueStore :=
  mkKeyValueStore (delete key (data s)) (ttl s).

(** One visit of the loop body of [ClearExpiredKeys] (identical in the two
    programs): [now] is the clock reading taken by [time.Since] when the
    entry [(key, value)] is visited. *)
Definition expired (TTL : Z) (now : Z) (value : KeyValue.t) : bool :=
  TTL <? time.Since now (KeyValue.Timestamp value).

Definition sweep_visit (TTL : Z) (clk : string → Z)
    (key : string) (value : KeyValue.t) (sp : ServerProxy) : ServerProxy :=
  if expired TTL (clk key) value
  then mkServerProxy (store_del (kvs sp) key) (delete key (cache sp))
  else sp.

(** One pass of [for key, value := range kvs.data { ... }], taken with both
    locks held.  Go visits every entry present when the loop starts exactly
    once, in an unspecified order; deleting the visited entry is allowed.
    [clk key] is the clock reading at the visit of [key]. *)
Definition sweep_pass (TTL : Z) (clk : string → Z) (sp : ServerProxy)
  : ServerProxy :=
  map_fold (sweep_visit TTL clk) sp (data (kvs sp)).

(** What a pass over the entries [m] leaves at the key [k] of the store and
    of the cache, when it started from the proxy [sp]. *)
Definition swept (TTL : Z) (clk : string → Z) (sp : ServerProxy)
    (m : gmap string KeyValue.t) (k : string)
  : option KeyValue.t * option KeyValue.t :=
  match m !! k with
  | Some value =>
      if expired TTL (clk k) value then (None, None)
      else (data (kvs sp) !! k, cache sp !! k)
  | None => (data (kvs sp) !! k, cache sp !! k)
  end.

(** ** Goroutines: an operation as a sequence of atomic steps

    To speak about locking, every operation is also written as the sequence
    of the steps it performs on the shared objects: a call on one of the two
    mutexes ([sp.mu], [kvs.mu]), a read [v, ok := m[key]] of one of the two
    maps, or a write to it ([m[key] = v] is a write of [Some v],
    [delete(m, key)] a write of [None]).  A deferred [Unlock] is the last
    step before the return. *)

Inductive mutex := sp_mu | kvs_mu.

Inductive sync := Lock | Unlock | RLock | RUnlock.

Inductive prog (R : Type) : Type :=
| Ret (r : R)
| Sync (m : mutex) (o : sync) (k : prog R)
| ReadCache (key : string) (k : option KeyValue.t → prog R)
| ReadStore (key : string) (k : option KeyValue.t → prog R)
| WriteCache (key : string) (v : option KeyValue.t) (k : prog R)
| WriteStore (key : string) (v : option KeyValue.t) (k : prog R).

Arguments Ret {R} r.
Arguments Sync {R} m o k.
Arguments ReadCache {R} key k.
Arguments ReadStore {R} key k.
Arguments WriteCache {R} key v k.
Arguments WriteStore {R} key v k.

(** Calling a function and going on with its result. *)
Fixpoint call {A B : Type} (p : prog A) (f : A → prog B) : prog B :=
  match p with
  | Ret r => f r
  | Sync m o k => Sync m o (call k f)
  | ReadCache key k => ReadCache key (λ v, call (k v) f)
  | ReadStore key k => ReadStore key (λ v, call (k v) f)
  | WriteCache key v k => WriteCache key v (call k f)
  | WriteStore key v k => WriteStore key v (call k f)
  end.

Definition map_write (key : string) (v : option KeyValue.t)
    (m : gmap string KeyValue.t) : gmap string KeyValue.t :=
  match v with
  | Some kv => <[key := kv]> m
  | None => delete key m
  end.

(** A program run by one goroutine alone: the mutex calls all succeed at
    once and change nothing else. *)
Fixpoint exec {R : Type} (p : prog R) (sp : ServerProxy) : R * ServerProxy :=
  match p with
  | Ret r => (r, sp)
  | Sync _ _ k => exec k sp
  | ReadCache key k => exec (k (cache sp !! key)) sp
  | ReadStore key k => exec (k (data (kvs sp) !! key)) sp
  | WriteCache key v k =>
      exec k (mkServerProxy (kvs sp) (map_write key v (cache sp)))
  | WriteStore key v k =>
      exec k
        (mkServerProxy
           (mkKeyValueStore (map_write key v (data (kvs sp))) (ttl (kvs sp)))
           (cache sp))
  end.

(** The state of the two mutexes: who holds [sp.mu], who holds [kvs.mu] for
    writing, and which goroutines hold it for reading. *)
Record locks := mkLocks {
  sp_holder : option nat;
  kvs_writer : option nat;
  kvs_readers : list nat
}.

Definition unlocked : locks := mkLocks None None [].

(** A mutex call of goroutine [tid]: the new lock state, or [None] when the
    call cannot proceed now (a [Lock] that has to wait) or at all (an
    [Unlock] of a mutex the goroutine does not hold, an [RLock] of [sp.mu],
    which no operation makes). *)
Definition sync_step (tid : nat) (m : mutex) (o : sync) (L : locks)
  : option locks :=
  match m, o with
  | sp_mu, Lock =>
      match sp_holder L with
      | None => Some (mkLocks (Some tid) (kvs_writer L) (kvs_readers L))
      | Some _ => None
      end
  | sp_mu, Unlock =>
      match sp_holder L with
      | Some h =>
          if Nat.eqb h tid
          then Some (mkLocks None (kvs_writer L) (kvs_readers L))
          else None
      | None => None
      end
  | sp_mu, _ => None
  | kvs_mu, Lock =>
      match kvs_writer L, kvs_readers L with
      | None, [] => Some (mkLocks (sp_holder L) (Some tid) [])
      | _, _ => None
      end
  | kvs_mu, Unlock =>
      match kvs_writer L with
      | Some h =>
          if Nat.eqb h tid
          then Some (mkLocks (sp_holder L) None (kvs_readers L))
          else None
      | None => None
      end
  | kvs_mu, RLock =>
      match kvs_writer L with
      | None => Some (mkLocks (sp_holder L) None (tid :: kvs_readers L))
      | Some _ => None
      end
  | kvs_mu, RUnlock =>
      if bool_decide (tid ∈ kvs_readers L)
      then Some (mkLocks (sp_holder L) (kvs_writer L)
                   (list_difference (kvs_readers L) [tid]))
      else None
  end.

(** The server at one instant: the shared objects, the mutexes, and what
    each goroutine has left to do. *)
Record config (R : Type) := mkConfig {
  shared : ServerProxy;
  mutexes : locks;
  pool : list (prog R)
}.

Arguments mkConfig {R} shared mutexes pool.
Arguments shared {R} c.
Arguments mutexes {R} c.
Arguments pool {R} c.

(** Goroutine [tid] takes its next step. *)
Definition step {R : Type} (tid : nat) (c : config R) : option (config R) :=
  match pool c !! tid with
  | None => None
  | Some p =>
      match p with
      | Ret _ => None
      | Sync m o k =>
          L ← sync_step tid m o (mutexes c);
          Some (mkConfig (shared c) L (<[tid := k]> (pool c)))
      | ReadCache key k =>
          Some (mkConfig (shared c) (mutexes c)
                  (<[tid := k (cache (shared c) !! key)]> (pool c)))
      | ReadStore key k =>
          Some (mkConfig (shared c) (mutexes c)
                  (<[tid := k (data (kvs (shared c)) !! key)]> (pool c)))
      | WriteCache key v k =>
          Some (mkConfig
                  (mkServerProxy (kvs (shared c))
                     (map_write key v (cache (shared c))))
                  (mutexes c) (<[tid := k]> (pool c)))
      | WriteStore key v k =>
          Some (mkConfig
                  (mkServerProxy
                     (mkKeyValueStore
                        (map_write key v (data (kvs (shared c))))
                        (ttl (kvs (shared c))))
                     (cache (shared c)))
                  (mutexes c) (<[tid := k]> (pool c)))
      end
  end.

(** A schedule names the goroutine that takes each successive step. *)
Fixpoint run {R : Type} (schedule : list nat) (c : config R)
  : option (config R) :=
  match schedule with
  | [] => Some c
  | tid :: rest => c' ← step tid c; run rest c'
  end.

(** [critical m p]: [p] runs with [m] held, never touches [m] again before
    it releases it, and releasing [m] is its last step before it returns. *)
Inductive critical {R : Type} (m : mutex) : prog R → Prop :=
| critical_unlock r : critical m (Sync m Unlock (Ret r))
| critical_sync m' o k :
    m' ≠ m → critical m k → critical m (Sync m' o k)
| critical_read_cache key k :
    (∀ v, critical m (k v)) → critical m (ReadCache key k)
| critical_read_store key k :
    (∀ v, critical m (k v)) → critical m (ReadStore key k)
| critical_write_cache key v k :
    critical m k → critical m (WriteCache key v k)
| critical_write_store key v k :
    critical m k → critical m (WriteStore key v k).

(** [holds_throughout m p]: the first step of [p] locks [m] and the rest of
    it is critical: [m] is held from the first step to the last. *)
Definition holds_throughout {R : Type} (m : mutex) (p : prog R) : Prop :=
  ∃ k, p = Sync m Lock k ∧ critical m k.

(** A goroutine that is not running an operation: it has returned, or has
    yet to take the first step of an operation that locks [sp.mu]. *)
Definition outside {R : Type} (p : prog R) : Prop :=
  (∃ r, p = Ret r) ∨ holds_throughout sp_mu p.

(** Every goroutine is outside, or is the holder of [sp.mu] and in its
    critical section. *)
Definition exclusive {R : Type} (c : config R) : Prop :=
  ∀ tid p, pool c !! tid = Some p →
    (outside p ∧ sp_holder (mutexes c) ≠ Some tid)
    ∨ (critical sp_mu p ∧ sp_holder (mutexes c) = Some tid).

(** The next step of the program reads or writes one of the maps. *)
Definition is_access {R : Type} (p : prog R) : Prop :=
  match p with
  | Ret _ | Sync _ _ _ => False
  | _ => True
  end.

(** The actions [handleConnection] has a case for. *)
Definition known_action (a : string) : bool :=
  String.eqb a "GET" || String.eqb a "SET" || String.eqb a "DELETE"
  || String.eqb a "UPDATE".

(** The clock of an operation that runs within one instant [t]. *)
Definition at_instant (t : Z) : nat → Z := λ _, t.

(** ** Histories

    What happens to the shared state over time: a request served by
    [handleConnection], which calls one operation of the proxy, or one pass
    of the sweeper.  Each happens at an instant, read by all its calls to
    the clock. *)

Inductive op :=
| GET (key : string)
| SET (key value : string)
| UPDATE (key value : string)
| DELETE (key : string).

(** The operations that write the entry of [k] when they succeed. *)
Definition writes (k : string) (o : op) : bool :=
  match o with
  | GET _ => false
  | SET key _ | UPDATE key _ | DELETE key => String.eqb key k
  end.

Inductive act := Serve (o : op) | Sweep.

Definition is_sweep (a : act) : bool :=
  match a with Sweep => true | Serve _ => false end.

Definition act_writes (k : string) (a : act) : bool :=
  match a with Sweep => false | Serve o => writes k o end.

Definition sweeps_of (h : list (Z * act)) : list Z :=
  (filter (λ e : Z * act, is_sweep e.2 = true) h).*1.

(** The wake-up times, up to the instant [t], of a loop started at [start]
    that sleeps [interval] before each pass, when sleeping takes exactly
    [interval] and a pass no time. *)
Definition due (start interval t : Z) : list Z :=
  (λ i : nat, start + Z.of_nat i * interval) <$>
    seq 1 (Z.to_nat ((t - start) / interval)).

(** ** [kvs-server.go] *)

Module V1.

Definition DefaultTTL : Z := 10 * time.Second.

Definition NewKeyValueStore : KeyValueStore :=
  mkKeyValueStore ∅ DefaultTTL.

Definition KeyValueStore_GET (s : KeyValueStore) (key : string)
  : string * bool :=
  match data s !! key with
  | None => ("NOT_FOUND", false)
  | Some item => (KeyValue.Value item, true)
  end.

Definition KeyValueStore_SET (clk : nat → Z) (s : KeyValueStore)
    (key value : string) : bool * KeyValueStore :=
  (true, store_put s key (KeyValue.mk value (clk 0%nat))).

Definition KeyValueStore_UPDATE (clk : nat → Z) (s : KeyValueStore)
    (key value : string) : bool * KeyValueStore :=
  match data s !! key with
  | None => (false, s)
  | Some _ => (true, store_put s key (KeyValue.mk value (clk 0%nat)))
  end.

(** The [error] result: [None] is [nil], [Some msg] the formatted error. *)
Definition KeyValueStore_DELETE (s : KeyValueStore) (key : string)
  : option string * KeyValueStore :=
  match data s !! key with
  | Some _ => (None, store_del s key)
  | None => (Some ("key '" +:+ key +:+ "' not found"), s)
  end.

Definition NewServerProxy (s : KeyValueStore) : ServerProxy :=
  mkServerProxy s ∅.

Definition ServerProxy_GET (clk : nat → Z) (sp : ServerProxy)
    (key : string) : (string * bool) * ServerProxy :=
  match cache sp !! key with
  | Some value => ((KeyValue.Value value, true), sp)
  | None =>
      let '(value, ok) := KeyValueStore_GET (kvs sp) key in
      let sp' :=
        if ok
        then mkServerProxy (kvs sp)
               (<[key := KeyValue.mk value (clk 0%nat)]> (cache sp))
        else sp in
      ((value, true), sp')
  end.

Definition ServerProxy_SET (clk : nat → Z) (sp : ServerProxy)
    (key value : string) : bool * ServerProxy :=
  let '(_, s') := KeyValueStore_SET clk (kvs sp) key value in
  (true, mkServerProxy s' (cache sp)).

Definition ServerProxy_UPDATE (clk : nat → Z) (sp : ServerProxy)
    (key value : string) : bool * ServerProxy :=
  match data (kvs sp) !! key with
  | None => (false, sp)
  | Some _ =>
      let s' := store_put (kvs sp) key (KeyValue.mk value (clk 0%nat)) in
      let c' :=
        match cache sp !! key with
        | Some _ => <[key := KeyValue.mk value (clk 1%nat)]> (cache sp)
        | None => cache sp
        end in
      (true, mkServerProxy s' c')
  end.

Definition ServerProxy_DELETE (sp : ServerProxy) (key : string)
  : option string * ServerProxy :=
  let c' := delete key (cache sp) in
  let '(err, s') := KeyValueStore_DELETE (kvs sp) key in
  (err, mkServerProxy s' c').

(** One pass of the loop body of [ClearExpiredKeys], after the sleep. *)
Definition ClearExpiredKeys_pass (TTL : Z) (clk : string → Z)
    (sp : ServerProxy) : ServerProxy :=
  sweep_pass TTL clk sp.

Definition sweepInterval : Z := 5 * time.Second.

(** The proxy and store [main] starts with. *)
Definition fresh : ServerProxy := NewServerProxy NewKeyValueStore.

Definition serve (o : op) (clk : nat → Z) (sp : ServerProxy)
  : ServerProxy :=
  match o with
  | GET key => (ServerProxy_GET clk sp key).2
  | SET key value => (ServerProxy_SET clk sp key value).2
  | UPDATE key value => (ServerProxy_UPDATE clk sp key value).2
  | DELETE key => (ServerProxy_DELETE sp key).2
  end.

(** [main] passes [DefaultTTL] to [ClearExpiredKeys]. *)
Definition play (e : Z * act) (sp : ServerProxy) : ServerProxy :=
  match e.2 with
  | Serve o => serve o (at_instant e.1) sp
  | Sweep => ClearExpiredKeys_pass DefaultTTL (λ _, e.1) sp
  end.

Definition history (h : list (Z * act)) (sp : ServerProxy) : ServerProxy :=
  foldl (λ sp e, play e sp) sp h.

(** *** The same operations, step by step *)

Definition KeyValueStore_GET_prog (key : string) : prog (string * bool) :=
  Sync kvs_mu RLock
    (ReadStore key (λ item,
       Sync kvs_mu RUnlock
         (Ret match item with
              | None => ("NOT_FOUND", false)
              | Some item => (KeyValue.Value item, true)
              end))).

Definition KeyValueStore_SET_prog (clk : nat → Z) (key value : string)
  : prog bool :=
  Sync kvs_mu Lock
    (WriteStore key (Some (KeyValue.mk value (clk 0%nat)))
       (Sync kvs_mu Unlock (Ret true))).

Definition KeyValueStore_UPDATE_prog (clk : nat → Z) (key value : string)
  : prog bool :=
  Sync kvs_mu Lock
    (ReadStore key (λ item,
       match item with
       | None => Sync kvs_mu Unlock (Ret false)
       | Some _ =>
           WriteStore key (Some (KeyValue.mk value (clk 0%nat)))
             (Sync kvs_mu Unlock (Ret true))
       end)).

Definition KeyValueStore_DELETE_prog (key : string)
  : prog (option string) :=
  Sync kvs_mu Lock
    (ReadStore key (λ item,
       match item with
       | Some _ => WriteStore key None (Sync kvs_mu Unlock (Ret None))
       | None =>
           Sync kvs_mu Unlock
             (Ret (Some ("key '" +:+ key +:+ "' not found")))
       end)).

(** [ServerProxy.GET] makes no call on [sp.mu]. *)
Definition ServerProxy_GET_prog (clk : nat → Z) (key : string)
  : prog (string * bool) :=
  ReadCache key (λ hit,
    match hit with
    | Some value => Ret (KeyValue.Value value, true)
    | None =>
        call (KeyValueStore_GET_prog key) (λ '(value, ok),
          if ok
          then WriteCache key (Some (KeyValue.mk value (clk 0%nat)))
                 (Ret (value, true))
          else Ret (value, true))
    end).

Definition ServerProxy_SET_prog (clk : nat → Z) (key value : string)
  : prog bool :=
  Sync sp_mu Lock
    (call (KeyValueStore_SET_prog clk key value) (λ _,
       Sync sp_mu Unlock (Ret true))).

Definition ServerProxy_UPDATE_prog (clk : nat → Z) (key value : string)
  : prog bool :=
  Sync sp_mu Lock
    (ReadStore key (λ item,
       match item with
       | None => Sync sp_mu Unlock (Ret false)
       | Some _ =>
           WriteStore key (Some (KeyValue.mk value (clk 0%nat)))
             (ReadCache key (λ present,
                match present with
                | Some _ =>
                    WriteCache key (Some (KeyValue.mk value (clk 1%nat)))
                      (Sync sp_mu Unlock (Ret true))
                | None => Sync sp_mu Unlock (Ret true)
                end))
       end)).

Definition ServerProxy_DELETE_prog (key : string)
  : prog (option string) :=
  Sync sp_mu Lock
    (WriteCache key None
       (call (KeyValueStore_DELETE_prog key) (λ err,
          Sync sp_mu Unlock (Ret err)))).

Module Response.
Record t := mk { Value : string; Found : bool; Success : bool }.
Definition zero : t := mk "" false false.
End Response.

(** What the handler leaves on the connection. *)
Record Conn := mkConn { sent : list Response.t; closed : bool }.

(** [handleConnection]: [decoded] is the outcome of [decoder.Decode]
    ([None] for a decoding error).  The deferred [conn.Close()] runs on
    every path. *)
Definition handleConnection (clk : nat → Z) (decoded : option Request.t)
    (proxy : ServerProxy) : Conn * ServerProxy :=
  match decoded with
  | None => (mkConn [] true, proxy)
  | Some request =>
      let response := Response.zero in
      let '(response, proxy') :=
        if String.eqb (Request.Action request) "GET" then
          let '((value, ok), p) :=
            ServerProxy_GET clk proxy (Request.Key request) in
          (Response.mk value ok (Response.Success response), p)
        else if String.eqb (Request.Action request) "SET" then
          let '(_, p) :=
            ServerProxy_SET clk proxy (Request.Key request)
              (Request.Value request) in
          (Response.mk (Response.Value response)
             (Response.Found response) true, p)
        else if String.eqb (Request.Action request) "DELETE" then
          let '(_, p) := ServerProxy_DELETE proxy (Request.Key request) in
          (Response.mk (Response.Value response)
             (Response.Found response) true, p)
        else if String.eqb (Request.Action request) "UPDATE" then
          let '(success, p) :=
            ServerProxy_UPDATE clk proxy (Request.Key request)
              (Request.Value request) in
          (Response.mk (Response.Value response)
             (Response.Found response) success, p)
        else (response, proxy) in
      (mkConn [response] true, proxy')
  end.

End V1.

(** ** Loops that never leave on their own

    Both background functions are [for { ... }] loops.  A body either goes
    on to the next iteration ([continue], or reaching the end of the body)
    or leaves the loop ([return], [break]).  [for_loop] runs the body on the
    successive inputs of the iterations for as long as it goes on, and
    counts the iterations it ran. *)

Inductive ctl := Continue | Return.

Fixpoint for_loop {I St : Type} (body : I → St → ctl * St)
    (inputs : list I) (s : St) : nat * St :=
  match inputs with
  | [] => (0%nat, s)
  | i :: rest =>
      match body i s with
      | (Continue, s') =>
          let '(n, s'') := for_loop body rest s' in (S n, s'')
      | (Return, s') => (1%nat, s')
      end
  end.

(** ** [kvs_server.go] *)

Module V2.

Definition DefaultTTL : Z := 15 * time.Second.

Definition NewKeyValueStore : KeyValueStore :=
  mkKeyValueStore ∅ DefaultTTL.

Definition KeyValueStore_GET (s : KeyValueStore) (key : string)
  : string * bool :=
  match data s !! key with
  | None => ("NOT_FOUND", false)
  | Some item => (KeyValue.Value item, false)
  end.

Definition KeyValueStore_SET (clk : nat → Z) (s : KeyValueStore)
    (key value : string) : bool * KeyValueStore :=
  (true, store_put s key (KeyValue.mk value (clk 0%nat))).

Definition KeyValueStore_UPDATE (clk : nat → Z) (s : KeyValueStore)
    (key value : string) : (string * bool) * KeyValueStore :=
  match data s !! key with
  | None => (("VALUE_NOT_EXIST", false), s)
  | Some _ =>
      (("VALUE_UPDATED", true),
       store_put s key (KeyValue.mk value (clk 0%nat)))
  end.

Definition KeyValueStore_DELETE (s : KeyValueStore) (key : string)
  : (string * bool) * KeyValueStore :=
  match data s !! key with
  | None => (("VALUE_NOT_EXIST", false), s)
  | Some _ => (("VALUE_DELETED", true), store_del s key)
  end.

Definition NewServerProxy (s : KeyValueStore) : ServerProxy :=
  mkServerProxy s ∅.

Definition ServerProxy_GET (clk : nat → Z) (sp : ServerProxy)
    (key : string) : (string * bool) * ServerProxy :=
  match cache sp !! key with
  | Some value => ((KeyValue.Value value, true), sp)
  | None =>
      let '(value, ok) := KeyValueStore_GET (kvs sp) key in
      let sp' :=
        if ok
        then mkServerProxy (kvs sp)
               (<[key := KeyValue.mk value (clk 0%nat)]> (cache sp))
        else sp in
      ((value, true), sp')
  end.

(** Writes [sp.kvs.data[key]] directly, without [KeyValueStore.SET]. *)
Definition ServerProxy_SET (clk : nat → Z) (sp : ServerProxy)
    (key value : string) : bool * ServerProxy :=
  (true,
   mkServerProxy (store_put (kvs sp) key (KeyValue.mk value (clk 0%nat)))
     (cache sp)).

(** The store's [UPDATE] makes the first call of [time.Now()], the cache
    write the second. *)
Definition ServerProxy_UPDATE (clk : nat → Z) (sp : ServerProxy)
    (key value : string) : (string * bool) * ServerProxy :=
  let '(_, ok) := KeyValueStore_GET (kvs sp) key in
  if negb ok then (("VALUE_NOT_EXIST", false), sp)
  else
    let '(_, s') := KeyValueStore_UPDATE clk (kvs sp) key value in
    (("VALUE_UPDATED", true),
     mkServerProxy s'
       (<[key := KeyValue.mk value (clk 1%nat)]> (cache sp))).

Definition ServerProxy_DELETE (sp : ServerProxy) (key : string)
  : (string * bool) * ServerProxy :=
  let '(_, ok) := KeyValueStore_GET (kvs sp) key in
  if negb ok then (("VALUE_NOT_EXIST", false), sp)
  else
    let '(_, s') := KeyValueStore_DELETE (kvs sp) key in
    (("VALUE_DELETED", true), mkServerProxy s' (delete key (cache sp))).

(** One pass of the loop body of [ClearExpiredKeys], after the sleep; the
    comparison is against the constant [DefaultTTL]. *)
Definition ClearExpiredKeys_pass (clk : string → Z) (sp : ServerProxy)
  : ServerProxy :=
  sweep_pass DefaultTTL clk sp.

Definition sweepInterval : Z := 2 * time.Second.

(** *** Snapshots *)

Definition BackupFileName : string := "backup.json".

Module BackupSnapshot.
Record t := mk { Data : gmap string KeyValue.t }.
End BackupSnapshot.

(** What a file holds: the complete JSON document of a snapshot, or, after
    [os.Create] truncated it and before an encoding completed, no complete
    document. *)
Inductive file := Truncated | Document (snapshot : BackupSnapshot.t).

(** The outcome of the two fallible calls of one cycle. *)
Record io := mkIo { create_ok : bool; encode_ok : bool }.

(** The input of one cycle: the outcomes of its I/O, the store when the
    read lock is held, and the content of the store's map when the encoder
    walks it.  [snapshot.Data] is the store's own map, not a copy, and the
    lock is released before the encoding, so the encoder serialises
    [live]. *)
Record cycle := mkCycle {
  cycle_io : io;
  cycle_kvs : KeyValueStore;
  cycle_live : gmap string KeyValue.t
}.

Definition BackupKeyValueStore_body (c : cycle) (fs : gmap string file)
  : ctl * gmap string file :=
  if negb (create_ok (cycle_io c)) then (Continue, fs)
  else
    let fs' := <[BackupFileName := Truncated]> fs in
    if negb (encode_ok (cycle_io c)) then (Continue, fs')
    else
      (Continue,
       <[BackupFileName := Document (BackupSnapshot.mk (cycle_live c))]>
         fs').

Definition BackupKeyValueStore (cycles : list cycle)
    (fs : gmap string file) : nat * gmap string file :=
  for_loop BackupKeyValueStore_body cycles fs.

(** The proxy and store [main] starts with. *)
Definition fresh : ServerProxy := NewServerProxy NewKeyValueStore.

Definition serve (o : op) (clk : nat → Z) (sp : ServerProxy)
  : ServerProxy :=
  match o with
  | GET key => (ServerProxy_GET clk sp key).2
  | SET key value => (ServerProxy_SET clk sp key value).2
  | UPDATE key value => (ServerProxy_UPDATE clk sp key value).2
  | DELETE key => (ServerProxy_DELETE sp key).2
  end.

Definition play (e : Z * act) (sp : ServerProxy) : ServerProxy :=
  match e.2 with
  | Serve o => serve o (at_instant e.1) sp
  | Sweep => ClearExpiredKeys_pass (λ _, e.1) sp
  end.

Definition history (h : list (Z * act)) (sp : ServerProxy) : ServerProxy :=
  foldl (λ sp e, play e sp) sp h.

(** *** The same operations, step by step *)

Definition KeyValueStore_GET_prog (key : string) : prog (string * bool) :=
  Sync kvs_mu RLock
    (ReadStore key (λ item,
       Sync kvs_mu RUnlock
         (Ret match item with
              | None => ("NOT_FOUND", false)
              | Some item => (KeyValue.Value item, false)
              end))).

Definition KeyValueStore_UPDATE_prog (clk : nat → Z) (key value : string)
  : prog (string * bool) :=
  Sync kvs_mu Lock
    (ReadStore key (λ item,
       match item with
       | None => Sync kvs_mu Unlock (Ret ("VALUE_NOT_EXIST", false))
       | Some _ =>
           WriteStore key (Some (KeyValue.mk value (clk 0%nat)))
             (Sync kvs_mu Unlock (Ret ("VALUE_UPDATED", true)))
       end)).

Definition KeyValueStore_DELETE_prog (key : string)
  : prog (string * bool) :=
  Sync kvs_mu Lock
    (ReadStore key (λ item,
       match item with
       | None => Sync kvs_mu Unlock (Ret ("VALUE_NOT_EXIST", false))
       | Some _ =>
           WriteStore key None
             (Sync kvs_mu Unlock (Ret ("VALUE_DELETED", true)))
       end)).

Definition ServerProxy_GET_prog (clk : nat → Z) (key : string)
  : prog (string * bool) :=
  Sync sp_mu Lock
    (ReadCache key (λ hit,
       match hit with
       | Some value => Sync sp_mu Unlock (Ret (KeyValue.Value value, true))
       | None =>
           call (KeyValueStore_GET_prog key) (λ '(value, ok),
             if ok
             then WriteCache key (Some (KeyValue.mk value (clk 0%nat)))
                    (Sync sp_mu Unlock (Ret (value, true)))
             else Sync sp_mu Unlock (Ret (value, true)))
       end)).

Definition ServerProxy_SET_prog (clk : nat → Z) (key value : string)
  : prog bool :=
  Sync sp_mu Lock
    (WriteStore key (Some (KeyValue.mk value (clk 0%nat)))
       (Sync sp_mu Unlock (Ret true))).

Definition ServerProxy_UPDATE_prog (clk : nat → Z) (key value : string)
  : prog (string * bool) :=
  Sync sp_mu Lock
    (call (KeyValueStore_GET_prog key) (λ '(_, ok),
       if negb ok then Sync sp_mu Unlock (Ret ("VALUE_NOT_EXIST", false))
       else
         call (KeyValueStore_UPDATE_prog clk key value) (λ _,
           WriteCache key (Some (KeyValue.mk value (clk 1%nat)))
             (Sync sp_mu Unlock (Ret ("VALUE_UPDATED", true)))))).

Definition ServerProxy_DELETE_prog (key : string)
  : prog (string * bool) :=
  Sync sp_mu Lock
    (call (KeyValueStore_GET_prog key) (λ '(_, ok),
       if negb ok then Sync sp_mu Unlock (Ret ("VALUE_NOT_EXIST", false))
       else
         call (KeyValueStore_DELETE_prog key) (λ _,
           WriteCache key None
             (Sync sp_mu Unlock (Ret ("VALUE_DELETED", true)))))).

Module Response.
Record t := mk {
  Value : string; Message : string; Found : bool; Success : bool
}.
Definition zero : t := mk "" "" false false.
End Response.

Record Conn := mkConn { sent : list Response.t; closed : bool }.

Definition handleConnection (clk : nat → Z) (decoded : option Request.t)
    (proxy : ServerProxy) : Conn * ServerProxy :=
  match decoded with
  | None => (mkConn [] true, proxy)
  | Some request =>
      let response := Response.zero in
      let '(response, proxy') :=
        if String.eqb (Request.Action request) "GET" then
          let '((value, ok), p) :=
            ServerProxy_GET clk proxy (Request.Key request) in
          (Response.mk value (Response.Message response) ok
             (Response.Success response), p)
        else if String.eqb (Request.Action request) "SET" then
          let '(_, p) :=
            ServerProxy_SET clk proxy (Request.Key request)
              (Request.Value request) in
          (Response.mk (Response.Value response)
             (Response.Message response) (Response.Found response) true, p)
        else if String.eqb (Request.Action request) "DELETE" then
          let '((value, ok), p) :=
            ServerProxy_DELETE proxy (Request.Key request) in
          (Response.mk (Response.Value response) value
             (Response.Found response) ok, p)
        else if String.eqb (Request.Action request) "UPDATE" then
          let '((value, ok), p) :=
            ServerProxy_UPDATE clk proxy (Request.Key request)
              (Request.Value request) in
          (Response.mk (Response.Value response) value
             (Response.Found response) ok, p)
        else (response, proxy) in
      (mkConn [response] true, proxy')
  end.

End V2.

(** ** The client program

    The second program listed with [kvs-server.go]: it dials the port of
    that server, sends one request and reads one response.  The [gob]
    encoding carries the exported fields of a struct unchanged, so the
    request the handler decodes is the one the client encoded, and the
    response the client decodes is the one the handler encoded. *)

Module Client.

(** [SendRequest]: [dial_ok] and [encode_ok] are the outcomes of
    [net.Dial] and [encoder.Encode]; [reply] is what [decoder.Decode]
    yields, [None] for a decoding error (such as a connection closed with
    nothing sent). *)
Definition SendRequest (dial_ok encode_ok : bool)
    (reply : option V1.Response.t) : string * bool :=
  if negb dial_ok then ("", false)
  else if negb encode_ok then ("", false)
  else
    match reply with
    | None => ("", false)
    | Some response =>
        (V1.Response.Value response, V1.Response.Found response)
    end.

(** One request of the client served by [handleConnection], with a working
    connection: what [SendRequest] returns, and the server afterwards. *)
Definition exchange (clk : nat → Z) (action key value : string)
    (proxy : ServerProxy) : (string * bool) * ServerProxy :=
  let '(conn, proxy') :=
    V1.handleConnection clk (Some (Request.mk action key value)) proxy in
  (SendRequest true true (head (V1.sent conn)), proxy').

End Client.

(** ** What keeps a cached entry

    The acts that leave the cache entry of [k] as it is whatever the state:
    every GET and SET, and UPDATE and DELETE of another key. *)
Definition keeps_cached (k : string) (a : act) : bool :=
  match a with
  | Serve (GET _) | Serve (SET _ _) => true
  | Serve (UPDATE key _) | Serve (DELETE key) => negb (String.eqb key k)
  | Sweep => false
  end.

(** ** [main]

    What [main] starts: the goroutines of its [go] statements, in order.
    [listen_ok] is the outcome of [net.Listen]; each iteration of the accept
    loop gets the outcome of [ln.Accept()], [None] for an error and
    [Some conn] for the connection [conn]. *)

Inductive goroutine :=
| go_handleConnection (conn : nat)
| go_ClearExpiredKeys
| go_BackupKeyValueStore.

#[global] Instance goroutine_eq_dec : EqDecision goroutine.
Proof. solve_decision. Defined.

(** [main] of [kvs-server.go]: the sweeper is started inside the accept
    loop, after the handler of each accepted connection. *)
Definition V1_main_body (accepted : option nat) (started : list goroutine)
  : ctl * list goroutine :=
  match accepted with
  | None => (Continue, started)
  | Some conn =>
      (Continue,
       (started ++ [go_handleConnection conn; go_ClearExpiredKeys])%list)
  end.

Definition V1_main (listen_ok : bool) (accepts : list (option nat))
  : nat * list goroutine :=
  if negb listen_ok then (0%nat, [])
  else for_loop V1_main_body accepts [].

(** [main] of [kvs_server.go]: the sweeper and the snapshot writer are
    started once, before the accept loop. *)
Definition V2_main_body (accepted : option nat) (started : list goroutine)
  : ctl * list goroutine :=
  match accepted with
  | None => (Continue, started)
  | Some conn => (Continue, (started ++ [go_handleConnection conn])%list)
  end.

Definition V2_main (listen_ok : bool) (accepts : list (option nat))
  : nat * list goroutine :=
  if negb listen_ok then (0%nat, [])
  else for_loop V2_main_body accepts
         [go_ClearExpiredKeys; go_BackupKeyValueStore].

(** The connections among the outcomes of [ln.Accept()]. *)
Definition accepted_connections (accepts : list (option nat)) : list nat :=
  omap id accepts.

(** The acts that neither store the key [k] again nor evict it. *)
Definition leaves_orphan (k : string) (a : act) : bool :=
  match a with
  | Serve (SET key _) | Serve (DELETE key) => negb (String.eqb key k)
  | _ => true
  end.

(** What the snapshot loop leaves in the backup file after a cycle whose
    file creation succeeded. *)
Definition written_by (c : V2.cycle) : V2.file :=
  if V2.encode_ok (V2.cycle_io c)
  then V2.Document (V2.BackupSnapshot.mk (V2.cycle_live c))
  else V2.Truncated.

(** ** Operations one after another

    [replay threads order sp]: the goroutines named by [order] run their
    programs to the end, one after another, from the state [sp]; the result
    is the final state and the pool in which each of them has returned. *)

Definition replay_one {R : Type} (threads : list (prog R))
    (acc : ServerProxy * list (prog R)) (tid : nat)
  : ServerProxy * list (prog R) :=
  match threads !! tid with
  | Some p => ((exec p acc.1).2, <[tid := Ret (exec p acc.1).1]> acc.2)
  | None => acc
  end.

Definition replay {R : Type} (threads : list (prog R)) (order : list nat)
    (sp : ServerProxy) : ServerProxy * list (prog R) :=
  foldl (replay_one threads) (sp, threads) order.

(** The server between two steps of an interleaved run, seen as a replay:
    the goroutines of [order] have run one after another; when [sp.mu] is
    held, its holder is not among them, is in its critical section, and
    what it has left to do, run alone from here, gives what its whole
    program gives when run alone after the others. *)
Definition serial_at {R : Type} (threads : list (prog R)) (sp : ServerProxy)
    (c : config R) (order : list nat) : Prop :=
  NoDup order
  ∧ match sp_holder (mutexes c) with
    | None => replay threads order sp = (shared c, pool c)
    | Some tid =>
        tid ∉ order
        ∧ ∃ p0 p, threads !! tid = Some p0
            ∧ critical sp_mu p
            ∧ pool c = <[tid := p]> (replay threads order sp).2
            ∧ exec p (shared c) = exec p0 (replay threads order sp).1
    end.

(** A goroutine running its program with no other goroutine taking a step:
    the number of steps it takes, its result, and the state and the mutexes
    at the end; [None] when one of its mutex calls cannot proceed. *)
Fixpoint solo {R : Type} (tid : nat) (p : prog R) (sp : ServerProxy)
    (L : locks) : option (nat * R * ServerProxy * locks) :=
  match p with
  | Ret r => Some (0%nat, r, sp, L)
  | Sync m o k =>
      L' ← sync_step tid m o L;
      '(n, r, sp', L'') ← solo tid k sp L';
      Some (S n, r, sp', L'')
  | ReadCache key k =>
      '(n, r, sp', L') ← solo tid (k (cache sp !! key)) sp L;
      Some (S n, r, sp', L')
  | ReadStore key k =>
      '(n, r, sp', L') ← solo tid (k (data (kvs sp) !! key)) sp L;
      Some (S n, r, sp', L')
  | WriteCache key v k =>
      '(n, r, sp', L') ←
        solo tid k (mkServerProxy (kvs sp) (map_write key v (cache sp))) L;
      Some (S n, r, sp', L')
  | WriteStore key v k =>
      '(n, r, sp', L') ←
        solo tid k
          (mkServerProxy
             (mkKeyValueStore (map_write key v (data (kvs sp)))
                (ttl (kvs sp)))
             (cache sp)) L;
      Some (S n, r, sp', L')
  end.

(** The results of the operations of the proxy, of either program. *)
Inductive result :=
| Value_found (value : string) (found : bool)
| Done (ok : bool)
| Message_done (message : string) (ok : bool)
| Error (err : option string).

Definition V1_op_prog (clk : nat → Z) (o : op) : prog result :=
  match o with
  | GET key =>
      call (V1.ServerProxy_GET_prog clk key)
        (λ r, Ret (Value_found r.1 r.2))
  | SET key value =>
      call (V1.ServerProxy_SET_prog clk key value) (λ r, Ret (Done r))
  | UPDATE key value =>
      call (V1.ServerProxy_UPDATE_prog clk key value) (λ r, Ret (Done r))
  | DELETE key =>
      call (V1.ServerProxy_DELETE_prog key) (λ r, Ret (Error r))
  end.

Definition V2_op_prog (clk : nat → Z) (o : op) : prog result :=
  match o with
  | GET key =>
      call (V2.ServerProxy_GET_prog clk key)
        (λ r, Ret (Value_found r.1 r.2))
  | SET key value =>
      call (V2.ServerProxy_SET_prog clk key value) (λ r, Ret (Done r))
  | UPDATE key value =>
      call (V2.ServerProxy_UPDATE_prog clk key value)
        (λ r, Ret (Message_done r.1 r.2))
  | DELETE key =>
      call (V2.ServerProxy_DELETE_prog key)
        (λ r, Ret (Message_done r.1 r.2))
  end.

(** The same operations as functions on the state. *)
Definition V1_op (clk : nat → Z) (o : op) (sp : ServerProxy)
  : result * ServerProxy :=
  match o with
  | GET key =>
      let '(r, sp') := V1.ServerProxy_GET clk sp key in
      (Value_found r.1 r.2, sp')
  | SET key value =>
      let '(r, sp') := V1.ServerProxy_SET clk sp key value in (Done r, sp')
  | UPDATE key value =>
      let '(r, sp') := V1.ServerProxy_UPDATE clk sp key value in
      (Done r, sp')
  | DELETE key =>
      let '(r, sp') := V1.ServerProxy_DELETE sp key in (Error r, sp')
  end.

Definition V2_op (clk : nat → Z) (o : op) (sp : ServerProxy)
  : result * ServerProxy :=
  match o with
  | GET key =>
      let '(r, sp') := V2.ServerProxy_GET clk sp key in
      (Value_found r.1 r.2, sp')
  | SET key value =>
      let '(r, sp') := V2.ServerProxy_SET clk sp key value in (Done r, sp')
  | UPDATE key value =>
      let '(r, sp') := V2.ServerProxy_UPDATE clk sp key value in
      (Message_done r.1 r.2, sp')
  | DELETE key =>
      let '(r, sp') := V2.ServerProxy_DELETE sp key in
      (Message_done r.1 r.2, sp')
  end.

(** Requests served one after another, in the order [order] of their
    positions in [reqs]; each request comes with the clock it reads. *)
Definition serve_in_order
    (f : (nat → Z) → op → ServerProxy → result * ServerProxy)
    (reqs : list ((nat → Z) * op)) (order : list nat) (sp : ServerProxy)
  : ServerProxy :=
  foldl (λ s tid,
           match reqs !! tid with
           | Some r => (f r.1 r.2 s).2
           | None => s
           end) sp order.

(** ** The sweeper among the goroutines

    One iteration of [ClearExpiredKeys], step by step: after its sleep it
    locks [kvs.mu], then [sp.mu], visits the entries of the store one by
    one, unlocks [kvs.mu], then [sp.mu], and sleeps again. *)

Inductive sweeper_pc :=
| Asleep
| HoldsKvs
| Sweeping (todo : list (string * KeyValue.t))
| ReleasedKvs.

Record server (R : Type) := mkServer {
  goroutines : config R;
  sweeper : sweeper_pc
}.

Arguments mkServer {R} goroutines sweeper.
Arguments goroutines {R} s.
Arguments sweeper {R} s.

Inductive who := Goroutine (tid : nat) | TheSweeper.

(** The sweeper is the goroutine after the last one of the pool. *)
Definition sweeper_tid {R : Type} (c : config R) : nat := length (pool c).

(** The next step of the sweeper.  The entries to visit are those the store
    holds when the loop starts. *)
Definition sweeper_step {R : Type} (TTL : Z) (clk : string → Z)
    (s : server R) : option (server R) :=
  let c := goroutines s in
  match sweeper s with
  | Asleep =>
      L ← sync_step (sweeper_tid c) kvs_mu Lock (mutexes c);
      Some (mkServer (mkConfig (shared c) L (pool c)) HoldsKvs)
  | HoldsKvs =>
      L ← sync_step (sweeper_tid c) sp_mu Lock (mutexes c);
      Some (mkServer (mkConfig (shared c) L (pool c))
              (Sweeping (reverse (map_to_list (data (kvs (shared c)))))))
  | Sweeping ((key, value) :: todo) =>
      Some (mkServer
              (mkConfig (sweep_visit TTL clk key value (shared c))
                 (mutexes c) (pool c))
              (Sweeping todo))
  | Sweeping [] =>
      L ← sync_step (sweeper_tid c) kvs_mu Unlock (mutexes c);
      Some (mkServer (mkConfig (shared c) L (pool c)) ReleasedKvs)
  | ReleasedKvs =>
      L ← sync_step (sweeper_tid c) sp_mu Unlock (mutexes c);
      Some (mkServer (mkConfig (shared c) L (pool c)) Asleep)
  end.

Definition server_step {R : Type} (TTL : Z) (clk : string → Z) (w : who)
    (s : server R) : option (server R) :=
  match w with
  | Goroutine tid =>
      c ← step tid (goroutines s); Some (mkServer c (sweeper s))
  | TheSweeper => sweeper_step TTL clk s
  end.

Fixpoint server_run {R : Type} (TTL : Z) (clk : string → Z)
    (schedule : list who) (s : server R) : option (server R) :=
  match schedule with
  | [] => Some s
  | w :: rest => s' ← server_step TTL clk w s; server_run TTL clk rest s'
  end.

(** * Properties *)

(** ** The clock *)

Lemma Since_gt (TTL now t : Z) :
  time.minDuration ≤ TTL < time.maxDuration →
  (TTL <? time.Since now t) = (TTL <? now - t).
Proof.
  intros [Hlo Hhi]. unfold time.Since, time.Sub.
  destruct (Z.ltb_spec (now - t) time.minDuration) as [H1|H1];
    [|destruct (Z.ltb_spec time.maxDuration (now - t)) as [H2|H2]];
    [| |reflexivity].
  - rewrite (proj2 (Z.ltb_ge _ _)) by lia.
    symmetry. apply Z.ltb_ge. lia.
  - rewrite (proj2 (Z.ltb_lt _ _)) by lia.
    symmetry. apply Z.ltb_lt. lia.
Qed.

Lemma expired_spec (TTL now : Z) (value : KeyValue.t) :
  time.minDuration ≤ TTL < time.maxDuration →
  expired TTL now value = true ↔ now - KeyValue.Timestamp value > TTL.
Proof.
  intros H. unfold expired. rewrite Since_gt by done.
  rewrite Z.ltb_lt. lia.
Qed.

Lemma DefaultTTL_range_V1 :
  time.minDuration ≤ V1.DefaultTTL < time.maxDuration.
Proof. by vm_compute. Qed.

Lemma DefaultTTL_range_V2 :
  time.minDuration ≤ V2.DefaultTTL < time.maxDuration.
Proof. by vm_compute. Qed.

(** ** One pass of the sweeper *)

Section sweep.

Variables (TTL : Z) (clk : string → Z).

Lemma sweep_fold_lookup (sp : ServerProxy) (m : gmap string KeyValue.t)
    (k : string) :
  let sp' := map_fold (sweep_visit TTL clk) sp m in
  (data (kvs sp') !! k, cache sp' !! k) = swept TTL clk sp m k
  ∧ ttl (kvs sp') = ttl (kvs sp).
Proof.
  revert k. cbv zeta.
  apply (map_fold_weak_ind (λ r m, ∀ k,
    (data (kvs r) !! k, cache r !! k) = swept TTL clk sp m k
    ∧ ttl (kvs r) = ttl (kvs sp))).
  - intros k. unfold swept. by rewrite lookup_empty.
  - intros i x m' r Hi IH k. destruct (IH k) as [IHk IHt].
    unfold swept in *. unfold sweep_visit.
    destruct (decide (i = k)) as [->|Hne].
    + rewrite lookup_insert_eq. rewrite Hi in IHk.
      destruct (expired TTL (clk k) x); simpl.
      * by rewrite !lookup_delete_eq.
      * done.
    + rewrite lookup_insert_ne by done.
      destruct (expired TTL (clk i) x); simpl.
      * by rewrite !lookup_delete_ne.
      * done.
Qed.

Lemma sweep_pass_store (sp : ServerProxy) (k : string) :
  data (kvs (sweep_pass TTL clk sp)) !! k =
    match data (kvs sp) !! k with
    | Some value =>
        if expired TTL (clk k) value then None else Some value
    | None => None
    end.
Proof.
  destruct (sweep_fold_lookup sp (data (kvs sp)) k) as [H _].
  unfold sweep_pass. unfold swept in H.
  destruct (data (kvs sp) !! k) as [value|] eqn:E.
  - destruct (expired TTL (clk k) value); by inversion H.
  - by inversion H.
Qed.

Lemma sweep_pass_cache (sp : ServerProxy) (k : string) :
  cache (sweep_pass TTL clk sp) !! k =
    match data (kvs sp) !! k with
    | Some value =>
        if expired TTL (clk k) value then None else cache sp !! k
    | None => cache sp !! k
    end.
Proof.
  destruct (sweep_fold_lookup sp (data (kvs sp)) k) as [H _].
  unfold sweep_pass. unfold swept in H.
  destruct (data (kvs sp) !! k) as [value|] eqn:E.
  - destruct (expired TTL (clk k) value); by inversion H.
  - by inversion H.
Qed.

Lemma sweep_pass_ttl (sp : ServerProxy) :
  ttl (kvs (sweep_pass TTL clk sp)) = ttl (kvs sp).
Proof.
  by destruct (sweep_fold_lookup sp (data (kvs sp)) "") as [_ H].
Qed.

End sweep.

(** ** A goroutine alone runs the operation

    The step-by-step program of every operation, run without any other
    goroutine, computes the operation. *)

Create HintDb kvs discriminated.

#[local] Hint Unfold
  store_put store_del map_write
  V1.KeyValueStore_GET V1.KeyValueStore_SET V1.KeyValueStore_UPDATE
  V1.KeyValueStore_DELETE V1.ServerProxy_GET V1.ServerProxy_SET
  V1.ServerProxy_UPDATE V1.ServerProxy_DELETE
  V1.KeyValueStore_GET_prog V1.KeyValueStore_SET_prog
  V1.KeyValueStore_UPDATE_prog V1.KeyValueStore_DELETE_prog
  V1.ServerProxy_GET_prog V1.ServerProxy_SET_prog
  V1.ServerProxy_UPDATE_prog V1.ServerProxy_DELETE_prog
  V2.KeyValueStore_GET V2.KeyValueStore_SET V2.KeyValueStore_UPDATE
  V2.KeyValueStore_DELETE V2.ServerProxy_GET V2.ServerProxy_SET
  V2.ServerProxy_UPDATE V2.ServerProxy_DELETE
  V2.KeyValueStore_GET_prog V2.KeyValueStore_UPDATE_prog
  V2.KeyValueStore_DELETE_prog
  V2.ServerProxy_GET_prog V2.ServerProxy_SET_prog
  V2.ServerProxy_UPDATE_prog V2.ServerProxy_DELETE_prog : kvs.

(** Unfold the operations and decide every map lookup they test. *)
Ltac split_lookups :=
  repeat (match goal with
          | |- context [match ?m !! ?k with _ => _ end] =>
              destruct (m !! k) eqn:?; cbn
          end).

Ltac run_alone :=
  intros; repeat match goal with sp : ServerProxy |- _ =>
    destruct sp as [[? ?] ?] end;
  autounfold with kvs; cbn; split_lookups;
  try reflexivity; try congruence.

Lemma V1_GET_alone clk sp key :
  exec (V1.ServerProxy_GET_prog clk key) sp = V1.ServerProxy_GET clk sp key.
Proof. run_alone. Qed.

Lemma V1_SET_alone clk sp key value :
  exec (V1.ServerProxy_SET_prog clk key value) sp
  = V1.ServerProxy_SET clk sp key value.
Proof. run_alone. Qed.

Lemma V1_UPDATE_alone clk sp key value :
  exec (V1.ServerProxy_UPDATE_prog clk key value) sp
  = V1.ServerProxy_UPDATE clk sp key value.
Proof. run_alone. Qed.

Lemma V1_DELETE_alone sp key :
  exec (V1.ServerProxy_DELETE_prog key) sp = V1.ServerProxy_DELETE sp key.
Proof. run_alone. Qed.

Lemma V2_GET_alone clk sp key :
  exec (V2.ServerProxy_GET_prog clk key) sp = V2.ServerProxy_GET clk sp key.
Proof. run_alone. Qed.

Lemma V2_SET_alone clk sp key value :
  exec (V2.ServerProxy_SET_prog clk key value) sp
  = V2.ServerProxy_SET clk sp key value.
Proof. run_alone. Qed.

Lemma V2_UPDATE_alone clk sp key value :
  exec (V2.ServerProxy_UPDATE_prog clk key value) sp
  = V2.ServerProxy_UPDATE clk sp key value.
Proof. run_alone. Qed.

Lemma V2_DELETE_alone sp key :
  exec (V2.ServerProxy_DELETE_prog key) sp = V2.ServerProxy_DELETE sp key.
Proof. run_alone. Qed.

(** ** The found flag of the proxy's GET *)

Lemma V1_GET_found clk sp key : (V1.ServerProxy_GET clk sp key).1.2 = true.
Proof. run_alone. Qed.

Lemma V2_GET_found clk sp key : (V2.ServerProxy_GET clk sp key).1.2 = true.
Proof. run_alone. Qed.

(** C1.  The proxy's GET does not report whether the store holds the key:
    on a server that has just started, where no key is present, GET of
    ["ghost"] answers [("NOT_FOUND", true)] in both programs, and the
    handler sends [Found = true]; indeed the flag is [true] for every state
    and key. *)
Theorem C1_proxy_GET_reports_found_for_absent_key :
  data (kvs V1.fresh) !! "ghost" = None
  ∧ (V1.ServerProxy_GET (at_instant 0) V1.fresh "ghost").1
    = ("NOT_FOUND", true)
  ∧ V1.sent (V1.handleConnection (at_instant 0)
               (Some (Request.mk "GET" "ghost" "")) V1.fresh).1
    = [V1.Response.mk "NOT_FOUND" true false]
  ∧ data (kvs V2.fresh) !! "ghost" = None
  ∧ (V2.ServerProxy_GET (at_instant 0) V2.fresh "ghost").1
    = ("NOT_FOUND", true)
  ∧ V2.sent (V2.handleConnection (at_instant 0)
               (Some (Request.mk "GET" "ghost" "")) V2.fresh).1
    = [V2.Response.mk "NOT_FOUND" "" true false]
  ∧ (∀ clk sp key, (V1.ServerProxy_GET clk sp key).1.2 = true)
  ∧ (∀ clk sp key, (V2.ServerProxy_GET clk sp key).1.2 = true).
Proof.
  repeat split; try reflexivity.
  - apply V1_GET_found.
  - apply V2_GET_found.
Qed.

(** ** The store's GET on an absent key *)

(** C10.  For a key absent from the store, the store's GET returns the
    string ["NOT_FOUND"] with [found = false], in both programs; the value
    is the one returned for a key that stores the string ["NOT_FOUND"]. *)
Theorem C10_store_GET_absent_value (s : KeyValueStore) (key : string) :
  data s !! key = None →
  V1.KeyValueStore_GET s key = ("NOT_FOUND", false)
  ∧ V2.KeyValueStore_GET s key = ("NOT_FOUND", false)
  ∧ ∀ (key' : string) (t : Z),
      data s !! key' = Some (KeyValue.mk "NOT_FOUND" t) →
      (V1.KeyValueStore_GET s key).1 = (V1.KeyValueStore_GET s key').1
      ∧ (V2.KeyValueStore_GET s key).1 = (V2.KeyValueStore_GET s key').1.
Proof.
  intros H. unfold V1.KeyValueStore_GET, V2.KeyValueStore_GET.
  rewrite H. repeat split; intros; by rewrite H0.
Qed.

Lemma C10_store_GET_absent_value_witness :
  let s := store_put V2.NewKeyValueStore "k" (KeyValue.mk "NOT_FOUND" 7) in
  V2.KeyValueStore_GET s "ghost" = ("NOT_FOUND", false)
  ∧ (V2.KeyValueStore_GET s "ghost").1 = (V2.KeyValueStore_GET s "k").1.
Proof.
  intros s.
  destruct (C10_store_GET_absent_value s "ghost" eq_refl) as (_ & H2 & H3).
  split; [exact H2|].
  exact (proj2 (H3 "k" 7 eq_refl)).
Defined.

(** ** UPDATE of an absent key *)



(** ** GET after SET *)

(** When the cache has no entry for the key, the GET that follows a SET
    misses the cache and reads the value just written. *)
Lemma V1_get_after_set_on_miss clk clk' sp key value :
  cache sp !! key = None →
  (V1.ServerProxy_GET clk' (V1.ServerProxy_SET clk sp key value).2 key).1
  = (value, true).
Proof.
  intros H. autounfold with kvs. cbn. rewrite H.
  by rewrite lookup_insert_eq.
Qed.

Lemma V2_get_after_set_on_miss clk clk' sp key value :
  cache sp !! key = None →
  (V2.ServerProxy_GET clk' (V2.ServerProxy_SET clk sp key value).2 key).1
  = (value, true).
Proof.
  intros H. autounfold with kvs. cbn. rewrite H.
  by rewrite lookup_insert_eq.
Qed.

(** In [kvs_server.go] nothing ever enters the cache: the store's GET
    answers [false] for every key, so the proxy's GET never fills the cache
    and UPDATE never reaches its cache write. *)
Lemma V2_cache_stays_empty (e : Z * act) (sp : ServerProxy) :
  cache sp = ∅ → cache (V2.play e sp) = ∅.
Proof.
  intros H. destruct e as [t [o|]]; unfold V2.play; cbn.
  - destruct o; cbn; autounfold with kvs; cbn; rewrite ?H, ?lookup_empty;
      split_lookups; try done; by rewrite H.
  - apply map_eq. intros k. unfold V2.ClearExpiredKeys_pass.
    rewrite sweep_pass_cache, H, lookup_empty.
    destruct (data (kvs sp) !! k) as [v|]; [|done].
    by destruct (expired _ _ v).
Qed.

(** C2.  In [kvs-server.go] a GET that follows a SET can return the value
    the key had before: SET writes the store and leaves the cache alone, so
    after SET("k","a"), GET("k"), SET("k","b") the cache still holds ["a"],
    and the next GET("k") returns [("a", true)] while the store holds
    ["b"]. *)
Theorem C2_get_after_set_returns_old_value :
  let sp1 := (V1.ServerProxy_SET (at_instant 1) V1.fresh "k" "a").2 in
  let sp2 := (V1.ServerProxy_GET (at_instant 2) sp1 "k").2 in
  let sp3 := (V1.ServerProxy_SET (at_instant 3) sp2 "k" "b").2 in
  (V1.ServerProxy_SET (at_instant 3) sp2 "k" "b").1 = true
  ∧ (V1.ServerProxy_GET (at_instant 4) sp3 "k").1 = ("a", true)
  ∧ V1.KeyValueStore_GET (kvs sp3) "k" = ("b", true).
Proof. by vm_compute. Qed.

(** ** DELETE *)

(** In [kvs-server.go], DELETE of a present key succeeds, removes the entry
    from the store and from the cache; on every key it evicts the cache
    entry and returns what the store's DELETE returns. *)
Lemma V1_delete_is_final (sp : ServerProxy) (key : string) :
  is_Some (data (kvs sp) !! key) →
  (V1.ServerProxy_DELETE sp key).1 = None
  ∧ data (kvs (V1.ServerProxy_DELETE sp key).2) !! key = None
  ∧ cache (V1.ServerProxy_DELETE sp key).2 !! key = None
  ∧ V1.KeyValueStore_GET (kvs (V1.ServerProxy_DELETE sp key).2) key
    = ("NOT_FOUND", false).
Proof.
  intros [e He]. autounfold with kvs. rewrite He. cbn.
  by rewrite !lookup_delete_eq.
Qed.

Lemma V1_delete_evicts_and_mirrors (sp : ServerProxy) (key : string) :
  cache (V1.ServerProxy_DELETE sp key).2 !! key = None
  ∧ (V1.ServerProxy_DELETE sp key).1 = (V1.KeyValueStore_DELETE (kvs sp) key).1
  ∧ kvs (V1.ServerProxy_DELETE sp key).2
    = (V1.KeyValueStore_DELETE (kvs sp) key).2.
Proof.
  autounfold with kvs. destruct (data (kvs sp) !! key); cbn;
    by rewrite lookup_delete_eq.
Qed.

Lemma V2_delete_never_deletes (sp : ServerProxy) (key : string) :
  V2.ServerProxy_DELETE sp key = (("VALUE_NOT_EXIST", false), sp).
Proof. autounfold with kvs. by destruct (data (kvs sp) !! key). Qed.

Lemma V2_update_never_updates clk (sp : ServerProxy) (key value : string) :
  V2.ServerProxy_UPDATE clk sp key value = (("VALUE_NOT_EXIST", false), sp).
Proof. autounfold with kvs. by destruct (data (kvs sp) !! key). Qed.

(** C4.  In [kvs_server.go] the proxy's DELETE of a present key does not
    succeed: after SET("name","John"), DELETE("name") answers
    [("VALUE_NOT_EXIST", false)] and leaves the store and the cache as they
    were, and the key is still read back. *)
Theorem C4_delete_of_present_key_fails :
  let sp := (V2.ServerProxy_SET (at_instant 1) V2.fresh "name" "John").2 in
  data (kvs sp) !! "name" = Some (KeyValue.mk "John" 1)
  ∧ V2.ServerProxy_DELETE sp "name" = (("VALUE_NOT_EXIST", false), sp)
  ∧ V2.KeyValueStore_DELETE (kvs sp) "name"
    = (("VALUE_DELETED", true), store_del (kvs sp) "name")
  ∧ (V2.ServerProxy_GET (at_instant 2)
       (V2.ServerProxy_DELETE sp "name").2 "name").1 = ("John", true).
Proof. by vm_compute. Qed.

(** ** Messages of UPDATE and DELETE *)

(** The messages are not the strings [UPDATED], [DELETED] and [NOT_FOUND]:
    on the store holding ["name"], the store's UPDATE and DELETE answer
    ["VALUE_UPDATED"] and ["VALUE_DELETED"], and on the absent key ["ghost"]
    they answer ["VALUE_NOT_EXIST"]. *)
Lemma C5_messages_counterexample :
  let s := (V2.KeyValueStore_SET (at_instant 1) V2.NewKeyValueStore
              "name" "John").2 in
  (V2.KeyValueStore_UPDATE (at_instant 2) s "name" "Alice").1
    ≠ ("UPDATED", true)
  ∧ (V2.KeyValueStore_DELETE s "name").1 ≠ ("DELETED", true)
  ∧ (V2.KeyValueStore_UPDATE (at_instant 2) s "ghost" "x").1
    ≠ ("NOT_FOUND", false)
  ∧ (V2.KeyValueStore_DELETE s "ghost").1 ≠ ("NOT_FOUND", false).
Proof. vm_compute. repeat split; discriminate. Qed.

(** C5, amended.  In [kvs_server.go] the store's UPDATE answers
    [("VALUE_UPDATED", true)] and the store's DELETE
    [("VALUE_DELETED", true)] on a key that exists, and both answer
    [("VALUE_NOT_EXIST", false)] on an absent key; the handler sends the
    message and the flag of the proxy's UPDATE or DELETE as the fields
    [Message] and [Success] of the response. *)
Theorem C5_messages (clk : nat → Z) (sp : ServerProxy) (key value : string) :
  (V2.KeyValueStore_UPDATE clk (kvs sp) key value).1
  = match data (kvs sp) !! key with
    | Some _ => ("VALUE_UPDATED", true)
    | None => ("VALUE_NOT_EXIST", false)
    end
  ∧ (V2.KeyValueStore_DELETE (kvs sp) key).1
    = match data (kvs sp) !! key with
      | Some _ => ("VALUE_DELETED", true)
      | None => ("VALUE_NOT_EXIST", false)
      end
  ∧ V2.handleConnection clk (Some (Request.mk "UPDATE" key value)) sp
    = (V2.mkConn
         [V2.Response.mk ""
            (V2.ServerProxy_UPDATE clk sp key value).1.1 false
            (V2.ServerProxy_UPDATE clk sp key value).1.2] true,
       (V2.ServerProxy_UPDATE clk sp key value).2)
  ∧ V2.handleConnection clk (Some (Request.mk "DELETE" key value)) sp
    = (V2.mkConn
         [V2.Response.mk ""
            (V2.ServerProxy_DELETE sp key).1.1 false
            (V2.ServerProxy_DELETE sp key).1.2] true,
       (V2.ServerProxy_DELETE sp key).2).
Proof.
  repeat split.
  - unfold V2.KeyValueStore_UPDATE. by destruct (data (kvs sp) !! key).
  - unfold V2.KeyValueStore_DELETE. by destruct (data (kvs sp) !! key).
  - unfold V2.handleConnection. cbn.
    by destruct (V2.ServerProxy_UPDATE clk sp key value) as [[m b] p].
  - unfold V2.handleConnection. cbn.
    by destruct (V2.ServerProxy_DELETE sp key) as [[m b] p].
Qed.

(** ** Requests with an unknown action *)

(** A request with the action ["PING"] gets a response in both programs. *)
Lemma C8_unknown_action_counterexample :
  known_action "PING" = false
  ∧ V1.sent (V1.handleConnection (at_instant 0)
               (Some (Request.mk "PING" "k" "v")) V1.fresh).1 ≠ []
  ∧ V2.sent (V2.handleConnection (at_instant 0)
               (Some (Request.mk "PING" "k" "v")) V2.fresh).1 ≠ [].
Proof. vm_compute. repeat split; discriminate. Qed.

(** C8, amended.  For a request whose action is none of GET, SET, DELETE
    and UPDATE, the handler calls no operation of the proxy (the store and
    the cache are unchanged), sends one response, the zero-valued one, and
    closes the connection, in both programs. *)
Theorem C8_unknown_action_gets_zero_response
    (clk : nat → Z) (request : Request.t) (sp : ServerProxy) :
  known_action (Request.Action request) = false →
  V1.handleConnection clk (Some request) sp
  = (V1.mkConn [V1.Response.mk "" false false] true, sp)
  ∧ V2.handleConnection clk (Some request) sp
    = (V2.mkConn [V2.Response.mk "" "" false false] true, sp).
Proof.
  unfold known_action. intros H.
  apply orb_false_elim in H as [H Hu].
  apply orb_false_elim in H as [H Hd].
  apply orb_false_elim in H as [Hg Hs].
  unfold V1.handleConnection, V2.handleConnection.
  by rewrite Hg, Hs, Hd, Hu.
Qed.

Lemma C8_unknown_action_gets_zero_response_witness :
  V2.handleConnection (at_instant 0) (Some (Request.mk "PING" "k" "v"))
    V2.fresh
  = (V2.mkConn [V2.Response.mk "" "" false false] true, V2.fresh).
Proof.
  exact (proj2 (C8_unknown_action_gets_zero_response (at_instant 0)
                  (Request.mk "PING" "k" "v") V2.fresh eq_refl)).
Defined.

(** ** Snapshots *)

Lemma backup_body_continues (c : V2.cycle) (fs : gmap string V2.file) :
  (V2.BackupKeyValueStore_body c fs).1 = Continue.
Proof.
  unfold V2.BackupKeyValueStore_body.
  destruct (V2.create_ok (V2.cycle_io c)); [|done].
  by destruct (V2.encode_ok (V2.cycle_io c)).
Qed.

Lemma for_loop_runs_all {I St : Type} (body : I → St → ctl * St) :
  (∀ i s, (body i s).1 = Continue) →
  ∀ inputs s, (for_loop body inputs s).1 = length inputs.
Proof.
  intros Hbody inputs. induction inputs as [|i rest IH]; intros s; [done|].
  cbn. specialize (Hbody i s). destruct (body i s) as [[] s']; [|done].
  specialize (IH s'). destruct (for_loop body rest s') as [n s''].
  cbn in *. by rewrite IH.
Qed.

Lemma for_loop_app {I St : Type} (body : I → St → ctl * St) :
  (∀ i s, (body i s).1 = Continue) →
  ∀ before after s,
    (for_loop body (before ++ after) s).2
    = (for_loop body after (for_loop body before s).2).2.
Proof.
  intros Hbody before. induction before as [|i rest IH]; intros after s;
    [done|].
  cbn. specialize (Hbody i s). destruct (body i s) as [[] s']; [|done].
  specialize (IH after s').
  destruct (for_loop body (rest ++ after) s') as [n1 s1].
  destruct (for_loop body rest s') as [n2 s2]. by cbn in *.
Qed.



(** ** Expiry *)

(** Operations that do not write the entry of [k] leave the store's entry
    of [k] alone, and do not bring [k] into the cache when the store has no
    entry for it. *)
Lemma V1_serve_store (o : op) clk (sp : ServerProxy) (k : string) :
  writes k o = false →
  data (kvs (V1.serve o clk sp)) !! k = data (kvs sp) !! k.
Proof.
  intros H. destruct o as [key|key value|key value|key]; cbn in H;
    try apply String.eqb_neq in H; unfold V1.serve;
    autounfold with kvs; cbn; split_lookups; cbn;
    rewrite ?lookup_insert_ne, ?lookup_delete_ne; done.
Qed.

Lemma V1_serve_absent (o : op) clk (sp : ServerProxy) (k : string) :
  writes k o = false →
  data (kvs sp) !! k = None → cache sp !! k = None →
  cache (V1.serve o clk sp) !! k = None.
Proof.
  intros H Hs Hc. destruct o as [key|key value|key value|key]; cbn in H;
    try apply String.eqb_neq in H; unfold V1.serve;
    autounfold with kvs; cbn; split_lookups; cbn;
    rewrite ?lookup_insert_ne, ?lookup_delete_ne; try done.
  intros ->. congruence.
Qed.

Lemma V2_serve_store (o : op) clk (sp : ServerProxy) (k : string) :
  writes k o = false →
  data (kvs (V2.serve o clk sp)) !! k = data (kvs sp) !! k.
Proof.
  intros H. destruct o as [key|key value|key value|key]; cbn in H;
    try apply String.eqb_neq in H; unfold V2.serve;
    autounfold with kvs; cbn; split_lookups; cbn;
    rewrite ?lookup_insert_ne, ?lookup_delete_ne; done.
Qed.

Lemma V2_serve_absent (o : op) clk (sp : ServerProxy) (k : string) :
  writes k o = false →
  data (kvs sp) !! k = None → cache sp !! k = None →
  cache (V2.serve o clk sp) !! k = None.
Proof.
  intros H Hs Hc. destruct o as [key|key value|key value|key]; cbn in H;
    try apply String.eqb_neq in H; unfold V2.serve;
    autounfold with kvs; cbn; split_lookups; cbn;
    rewrite ?lookup_insert_ne, ?lookup_delete_ne; done.
Qed.

Section expiry.

Variables (TTL : Z) (play : Z * act → ServerProxy → ServerProxy).
Variables (k v : string) (T : Z).

Hypothesis TTL_range : time.minDuration ≤ TTL < time.maxDuration.
Hypothesis play_sweep :
  ∀ t sp, play (t, Sweep) sp = sweep_pass TTL (λ _, t) sp.
Hypothesis play_store :
  ∀ t o sp, writes k o = false →
    data (kvs (play (t, Serve o) sp)) !! k = data (kvs sp) !! k.
Hypothesis play_absent :
  ∀ t o sp, writes k o = false →
    data (kvs sp) !! k = None → cache sp !! k = None →
    cache (play (t, Serve o) sp) !! k = None.

Let written (sp : ServerProxy) : Prop :=
  data (kvs sp) !! k = Some (KeyValue.mk v T).
Let gone (sp : ServerProxy) : Prop :=
  data (kvs sp) !! k = None ∧ cache sp !! k = None.

Lemma play_gone (e : Z * act) (sp : ServerProxy) :
  act_writes k e.2 = false → gone sp → gone (play e sp).
Proof.
  destruct e as [t [o|]]; cbn; intros Hw [Hs Hc]; split.
  - by rewrite play_store.
  - by apply play_absent.
  - by rewrite play_sweep, sweep_pass_store, Hs.
  - by rewrite play_sweep, sweep_pass_cache, Hs.
Qed.

Lemma play_written_or_gone (e : Z * act) (sp : ServerProxy) :
  act_writes k e.2 = false →
  written sp ∨ gone sp → written (play e sp) ∨ gone (play e sp).
Proof.
  intros Hw [Hq|Hp]; [|right; by apply play_gone].
  destruct e as [t [o|]]; cbn in Hw.
  - left. unfold written. by rewrite play_store.
  - unfold written, gone.
    rewrite play_sweep, sweep_pass_store, sweep_pass_cache, Hq.
    destruct (expired TTL t _); auto.
Qed.

Lemma play_early (e : Z * act) (sp : ServerProxy) :
  act_writes k e.2 = false → e.1 ≤ T + TTL →
  written sp → written (play e sp).
Proof.
  intros Hw Ht Hq. destruct e as [t [o|]]; cbn in *; unfold written.
  - by rewrite play_store.
  - rewrite play_sweep, sweep_pass_store, Hq.
    destruct (expired TTL t _) eqn:E; [|done].
    apply expired_spec in E; [|done]. cbn in E. lia.
Qed.

Lemma play_late_sweep (t : Z) (sp : ServerProxy) :
  T + TTL < t → written sp ∨ gone sp → gone (play (t, Sweep) sp).
Proof.
  intros Ht [Hq|Hp]; [|by apply play_gone].
  unfold gone. rewrite play_sweep, sweep_pass_store, sweep_pass_cache, Hq.
  assert (E : expired TTL t (KeyValue.mk v T) = true).
  { apply expired_spec; [done|]. cbn. lia. }
  by rewrite E.
Qed.

Let history (h : list (Z * act)) (sp : ServerProxy) : ServerProxy :=
  foldl (λ sp e, play e sp) sp h.

Lemma history_gone (h : list (Z * act)) (sp : ServerProxy) :
  Forall (λ e, act_writes k e.2 = false) h →
  gone sp → gone (history h sp).
Proof.
  intros Hh. revert sp. induction Hh as [|e h He Hh IH]; intros sp Hp;
    [done|].
  cbn. apply IH. by apply play_gone.
Qed.

Lemma history_written_or_gone (h : list (Z * act)) (sp : ServerProxy) :
  Forall (λ e, act_writes k e.2 = false) h →
  written sp ∨ gone sp → written (history h sp) ∨ gone (history h sp).
Proof.
  intros Hh. revert sp. induction Hh as [|e h He Hh IH]; intros sp Hp;
    [done|].
  cbn. apply IH. by apply play_written_or_gone.
Qed.

(** Up to the instant [T + TTL] the entry stays. *)
Lemma history_present (h : list (Z * act)) (sp : ServerProxy) :
  Forall (λ e, act_writes k e.2 = false) h →
  Forall (λ e, e.1 ≤ T + TTL) h →
  data (kvs sp) !! k = Some (KeyValue.mk v T) →
  data (kvs (history h sp)) !! k = Some (KeyValue.mk v T).
Proof.
  intros Hh. revert sp. induction Hh as [|e h He Hh IH]; intros sp Ht Hq;
    [done|].
  inversion Ht; subst. cbn. apply IH; [done|]. by apply play_early.
Qed.

(** Once a pass ran after [T + TTL], the entry is gone from both maps. *)
Lemma history_absent (h : list (Z * act)) (sp : ServerProxy) (s : Z) :
  Forall (λ e, act_writes k e.2 = false) h →
  s ∈ sweeps_of h → T + TTL < s →
  data (kvs sp) !! k = Some (KeyValue.mk v T) →
  data (kvs (history h sp)) !! k = None ∧ cache (history h sp) !! k = None.
Proof.
  intros Hh Hs Hlate Hq. unfold sweeps_of in Hs.
  apply list_elem_of_fmap in Hs as ([s' a] & -> & Hin).
  apply list_elem_of_filter in Hin as [Ha Hin]. cbn in Ha.
  destruct a; [done|]. cbn in Hlate.
  apply list_elem_of_split in Hin as (h1 & h2 & ->).
  apply Forall_app in Hh as [Hh1 Hh2]. inversion Hh2; subst.
  unfold history. rewrite foldl_app. cbn.
  apply history_gone; [done|]. apply play_late_sweep; [done|].
  apply history_written_or_gone; [done|]. by left.
Qed.

End expiry.

(** A loop that wakes up every [interval] has run a pass between the
    instant [x] and any instant more than [interval] later. *)
Lemma due_after (start interval x t : Z) :
  0 < interval → start ≤ x → x + interval < t →
  ∃ s, s ∈ due start interval t ∧ x < s.
Proof.
  intros Hi Hx Ht. set (i := (x - start) / interval + 1).
  assert (H0 : 0 ≤ (x - start) / interval) by (apply Z.div_pos; lia).
  assert (Hle : i ≤ (t - start) / interval).
  { unfold i. apply Z.div_le_lower_bound; [lia|].
    pose proof (Z.mul_div_le (x - start) interval Hi). nia. }
  exists (start + Z.of_nat (Z.to_nat i) * interval). split.
  - unfold due. apply list_elem_of_fmap. exists (Z.to_nat i). split; [done|].
    apply elem_of_seq. unfold i in *. lia.
  - rewrite Z2Nat.id by (unfold i; lia).
    pose proof (Z.mod_pos_bound (x - start) interval Hi).
    pose proof (Z.div_mod (x - start) interval ltac:(lia)).
    unfold i. nia.
Qed.



(** ** Locking *)

Ltac in_critical_section :=
  cbn;
  repeat (first
    [ apply critical_unlock
    | apply critical_sync; [discriminate|]
    | apply critical_read_cache; intros [?|]
    | apply critical_read_store; intros [?|]
    | apply critical_write_cache
    | apply critical_write_store ]; cbn).

Ltac locked_throughout :=
  intros; eexists; split; [reflexivity|]; in_critical_section.

Lemma V1_SET_locked clk key value :
  holds_throughout sp_mu (V1.ServerProxy_SET_prog clk key value).
Proof. locked_throughout. Qed.

Lemma V1_UPDATE_locked clk key value :
  holds_throughout sp_mu (V1.ServerProxy_UPDATE_prog clk key value).
Proof. locked_throughout. Qed.

Lemma V1_DELETE_locked key :
  holds_throughout sp_mu (V1.ServerProxy_DELETE_prog key).
Proof. locked_throughout. Qed.

Lemma V2_GET_locked clk key :
  holds_throughout sp_mu (V2.ServerProxy_GET_prog clk key).
Proof. locked_throughout. Qed.

Lemma V2_SET_locked clk key value :
  holds_throughout sp_mu (V2.ServerProxy_SET_prog clk key value).
Proof. locked_throughout. Qed.

Lemma V2_UPDATE_locked clk key value :
  holds_throughout sp_mu (V2.ServerProxy_UPDATE_prog clk key value).
Proof. locked_throughout. Qed.

Lemma V2_DELETE_locked key :
  holds_throughout sp_mu (V2.ServerProxy_DELETE_prog key).
Proof. locked_throughout. Qed.

Lemma V1_GET_not_locked clk key :
  ¬ holds_throughout sp_mu (V1.ServerProxy_GET_prog clk key).
Proof. intros (k & H & _). discriminate H. Qed.

(** *** Mutual exclusion

    When every goroutine runs operations that hold [sp.mu] throughout, at
    most one goroutine at a time is past its [Lock], and every access to a
    map is made by the goroutine that holds [sp.mu]. *)

Lemma sync_step_other_mutex tid o L L' :
  sync_step tid kvs_mu o L = Some L' → sp_holder L' = sp_holder L.
Proof.
  unfold sync_step. intros H.
  destruct o; repeat case_match; by simplify_eq.
Qed.

Lemma exclusive_update {R : Type} (c : config R) tid p k sh L :
  exclusive c → pool c !! tid = Some p →
  critical sp_mu p → critical sp_mu k →
  sp_holder L = sp_holder (mutexes c) →
  exclusive (mkConfig sh L (<[tid := k]> (pool c))).
Proof.
  intros Hex Hp Hcp Hck HL tid' p'. cbn. rewrite HL.
  destruct (decide (tid' = tid)) as [->|Hne].
  - rewrite list_lookup_insert_eq by (by eapply lookup_lt_Some).
    intros [= <-]. right. split; [done|].
    destruct (Hex _ _ Hp) as [[Hout _]|[_ H]]; [exfalso|done].
    destruct Hout as [[r ->]|(k' & -> & _)]; inversion Hcp; done.
  - rewrite list_lookup_insert_ne by done. apply Hex.
Qed.

Lemma step_exclusive {R : Type} (tid : nat) (c c' : config R) :
  exclusive c → step tid c = Some c' → exclusive c'.
Proof.
  intros Hex Hstep. unfold step in Hstep.
  destruct (pool c !! tid) as [p|] eqn:Hp; [|done].
  destruct (Hex _ _ Hp) as [[Hout Hfree]|[Hcrit Hheld]].
  - (* the goroutine is about to lock *)
    destruct Hout as [[r ->]|(k & -> & Hk)]; [done|].
    cbn in Hstep. destruct (sp_holder (mutexes c)) eqn:Hh; [done|].
    cbn in Hstep. simplify_eq. intros tid' p'. cbn.
    destruct (decide (tid' = tid)) as [->|Hne].
    + rewrite list_lookup_insert_eq by (by eapply lookup_lt_Some).
      intros [= <-]. by right.
    + rewrite list_lookup_insert_ne by done. intros Hp'.
      destruct (Hex _ _ Hp') as [[Hout' _]|[_ Hheld']].
      * left. split; [done|]. congruence.
      * congruence.
  - (* the goroutine holds the mutex *)
    inversion Hcrit as [r Hr|m' o k Hm Hk Hr|key k Hk Hr|key k Hk Hr
                       |key v k Hk Hr|key v k Hk Hr]; subst p.
    + cbn in Hstep. rewrite Hheld in Hstep. rewrite Nat.eqb_refl in Hstep.
      cbn in Hstep. simplify_eq. intros tid' p'. cbn.
      destruct (decide (tid' = tid)) as [->|Hne].
      * rewrite list_lookup_insert_eq by (by eapply lookup_lt_Some).
        intros [= <-]. left. split; [left; by eexists|done].
      * rewrite list_lookup_insert_ne by done. intros Hp'.
        destruct (Hex _ _ Hp') as [[Hout' _]|[_ Hheld']].
        -- left. split; [done|]. done.
        -- congruence.
    + destruct m'; [done|]. cbv beta iota in Hstep.
      destruct (sync_step tid kvs_mu o (mutexes c)) as [L|] eqn:HL; [|done].
      cbn in Hstep. simplify_eq.
      eapply exclusive_update; eauto using sync_step_other_mutex.
    + simplify_eq. eapply exclusive_update; eauto.
    + simplify_eq. eapply exclusive_update; eauto.
    + simplify_eq. eapply exclusive_update; eauto.
    + simplify_eq. eapply exclusive_update; eauto.
Qed.

Lemma run_exclusive {R : Type} (schedule : list nat) (c c' : config R) :
  exclusive c → run schedule c = Some c' → exclusive c'.
Proof.
  revert c. induction schedule as [|tid rest IH]; intros c Hex Hrun.
  - cbn in Hrun. by simplify_eq.
  - cbn in Hrun. destruct (step tid c) as [c1|] eqn:Hstep; [|done].
    cbn in Hrun. eauto using step_exclusive.
Qed.

(** A server whose goroutines have not started their operations. *)
Lemma initially_exclusive {R : Type} (sp : ServerProxy)
    (threads : list (prog R)) :
  Forall (holds_throughout sp_mu) threads →
  exclusive (mkConfig sp unlocked threads).
Proof.
  intros Hall tid p Hp. left. split; [|done]. right.
  rewrite Forall_lookup in Hall. by eapply Hall.
Qed.

(** In [kvs_server.go], whatever the schedule, a goroutine that reads or
    writes a map is the holder of [sp.mu], and no two goroutines are past
    their [Lock] at once. *)
Lemma mutual_exclusion {R : Type} (sp : ServerProxy)
    (threads : list (prog R)) (schedule : list nat) (c : config R) :
  Forall (holds_throughout sp_mu) threads →
  run schedule (mkConfig sp unlocked threads) = Some c →
  (∀ tid p, pool c !! tid = Some p → is_access p →
     sp_holder (mutexes c) = Some tid)
  ∧ (∀ i j p q, pool c !! i = Some p → pool c !! j = Some q →
       critical sp_mu p → critical sp_mu q → i = j).
Proof.
  intros Hall Hrun.
  assert (Hex : exclusive c)
    by eauto using run_exclusive, initially_exclusive.
  split.
  - intros tid p Hp Hacc.
    destruct (Hex _ _ Hp) as [[[[r ->]|(k & -> & _)] _]|[_ H]]; done.
  - intros i j p q Hp Hq Hcp Hcq.
    destruct (Hex _ _ Hp) as [[Hout _]|[_ Hi]].
    { exfalso. destruct Hout as [[r ->]|(k & -> & _)]; inversion Hcp; done. }
    destruct (Hex _ _ Hq) as [[Hout _]|[_ Hj]].
    { exfalso. destruct Hout as [[r ->]|(k & -> & _)]; inversion Hcq; done. }
    congruence.
Qed.

(** C9.  In [kvs-server.go] the proxy's GET makes no call on the proxy's
    mutex, so it does not hold it, and its miss-then-populate sequence is
    not atomic: with ["k"] stored, a GET("k") that has read the store when
    a DELETE("k") runs from its first step to its last, and then writes the
    cache, leaves ["k"] in the cache and not in the store; neither order of
    the two operations does, and a later GET("k") returns the deleted
    value. *)
Theorem C9_V1_GET_does_not_hold_the_mutex :
  let sp := (V1.ServerProxy_SET (at_instant 1) V1.fresh "k" "v").2 in
  let getter : prog (string * bool + option string) :=
    call (V1.ServerProxy_GET_prog (at_instant 2) "k") (λ r, Ret (inl r)) in
  let deleter : prog (string * bool + option string) :=
    call (V1.ServerProxy_DELETE_prog "k") (λ r, Ret (inr r)) in
  (∀ clk key, ¬ holds_throughout sp_mu (V1.ServerProxy_GET_prog clk key))
  ∧ match run [0; 0; 0; 0; 1; 1; 1; 1; 1; 1; 1; 0]%nat
            (mkConfig sp unlocked [getter; deleter]) with
    | None => False
    | Some c =>
        pool c = [Ret (inl ("v", true)); Ret (inr None)]
        ∧ mutexes c = unlocked
        ∧ data (kvs (shared c)) !! "k" = None
        ∧ cache (shared c) !! "k" = Some (KeyValue.mk "v" 2)
        ∧ cache (exec deleter (exec getter sp).2).2 !! "k" = None
        ∧ cache (exec getter (exec deleter sp).2).2 !! "k" = None
        ∧ (V1.ServerProxy_GET (at_instant 3) (shared c) "k").1 = ("v", true)
    end.
Proof.
  split; [intros clk key; apply V1_GET_not_locked|].
  vm_compute. by repeat split.
Qed.


(** * Further properties of the two programs *)

(** ** The store *)

(** The store of [kvs-server.go]: a GET after a SET returns the value set
    and [true]; the SET stamps the entry with the clock, leaves every other
    key as it was and always answers [true]. *)
Theorem V1_store_SET_then_GET
    (clk : nat → Z) (s : KeyValueStore) (key value key' : string) :
  (V1.KeyValueStore_SET clk s key value).1 = true
  ∧ data (V1.KeyValueStore_SET clk s key value).2 !! key
    = Some (KeyValue.mk value (clk 0%nat))
  ∧ V1.KeyValueStore_GET (V1.KeyValueStore_SET clk s key value).2 key'
    = (if decide (key' = key) then (value, true)
       else V1.KeyValueStore_GET s key')
  ∧ ttl (V1.KeyValueStore_SET clk s key value).2 = ttl s.
Proof.
  autounfold with kvs. cbn. rewrite lookup_insert_eq.
  repeat split. case_decide as Hk.
  - subst. by rewrite lookup_insert_eq.
  - by rewrite lookup_insert_ne.
Qed.

(** The store of [kvs_server.go] never reports a key as found: the flag of
    its GET is [false] in every state and for every key, also right after a
    SET of that key, which does return the value. *)
Theorem V2_store_GET_never_found
    (clk : nat → Z) (s : KeyValueStore) (key value : string) :
  (V2.KeyValueStore_GET s key).2 = false
  ∧ V2.KeyValueStore_GET (V2.KeyValueStore_SET clk s key value).2 key
    = (value, false).
Proof.
  autounfold with kvs. cbn. rewrite lookup_insert_eq.
  split; [|done]. by destruct (data s !! key).
Qed.

(** The store's UPDATE never creates nor removes a key, in either program:
    the keys of the store are the same afterwards, the flag tells whether
    the key was there, and the only entry that can change is the one of the
    key, which gets the new value and the clock's stamp. *)
Theorem store_UPDATE_keeps_keys
    (clk : nat → Z) (s : KeyValueStore) (key value key' : string) :
  dom (data (V1.KeyValueStore_UPDATE clk s key value).2) = dom (data s)
  ∧ dom (data (V2.KeyValueStore_UPDATE clk s key value).2) = dom (data s)
  ∧ (V1.KeyValueStore_UPDATE clk s key value).1
    = bool_decide (key ∈ dom (data s))
  ∧ (V2.KeyValueStore_UPDATE clk s key value).1
    = (if bool_decide (key ∈ dom (data s)) then ("VALUE_UPDATED", true)
       else ("VALUE_NOT_EXIST", false))
  ∧ (V2.KeyValueStore_UPDATE clk s key value).2
    = (V1.KeyValueStore_UPDATE clk s key value).2
  ∧ data (V1.KeyValueStore_UPDATE clk s key value).2 !! key'
    = (if bool_decide (key' = key ∧ key ∈ dom (data s))
       then Some (KeyValue.mk value (clk 0%nat))
       else data s !! key').
Proof.
  autounfold with kvs.
  destruct (data s !! key) as [e|] eqn:E; cbn.
  - assert (Hin : key ∈ dom (data s)) by (apply elem_of_dom; eauto).
    rewrite !(bool_decide_eq_true_2 _ Hin).
    repeat split; try (rewrite dom_insert_L; set_solver).
    case_bool_decide as Hk.
    + destruct Hk as [-> _]. by rewrite lookup_insert_eq.
    + rewrite lookup_insert_ne; [done|]. intros <-. by apply Hk.
  - assert (Hin : key ∉ dom (data s)) by (by apply not_elem_of_dom).
    rewrite !(bool_decide_eq_false_2 _ Hin).
    repeat split. case_bool_decide as Hk; [|done]. by destruct Hk.
Qed.

(** The store's DELETE removes the key and nothing else, in either
    program; a second DELETE of the same key finds nothing to delete (an
    error naming the key in [kvs-server.go], ["VALUE_NOT_EXIST"] in
    [kvs_server.go]) and changes nothing. *)
Theorem store_DELETE_removes_only_the_key (s : KeyValueStore) (key : string) :
  dom (data (V1.KeyValueStore_DELETE s key).2) = dom (data s) ∖ {[key]}
  ∧ (∀ key', key' ≠ key →
       data (V1.KeyValueStore_DELETE s key).2 !! key' = data s !! key')
  ∧ (V2.KeyValueStore_DELETE s key).2 = (V1.KeyValueStore_DELETE s key).2
  ∧ V1.KeyValueStore_DELETE (V1.KeyValueStore_DELETE s key).2 key
    = (Some ("key '" +:+ key +:+ "' not found"),
       (V1.KeyValueStore_DELETE s key).2)
  ∧ V2.KeyValueStore_DELETE (V2.KeyValueStore_DELETE s key).2 key
    = (("VALUE_NOT_EXIST", false), (V2.KeyValueStore_DELETE s key).2).
Proof.
  autounfold with kvs.
  destruct (data s !! key) as [e|] eqn:E; cbn.
  - rewrite !lookup_delete_eq. repeat split.
    + by rewrite dom_delete_L.
    + intros key' Hne. by rewrite lookup_delete_ne.
  - rewrite !E. repeat split.
    apply not_elem_of_dom in E. set_solver.
Qed.

(** ** The proxy of [kvs-server.go] *)

(** Every served request and every pass of the sweeper keeps the keys of
    the cache among the keys of the store. *)
Lemma V1_play_cache_within_store (e : Z * act) (sp : ServerProxy) :
  dom (cache sp) ⊆ dom (data (kvs sp)) →
  dom (cache (V1.play e sp)) ⊆ dom (data (kvs (V1.play e sp))).
Proof.
  intros H k. rewrite !elem_of_dom. specialize (H k).
  rewrite !elem_of_dom in H. revert H.
  destruct e as [t [o|]]; unfold V1.play; cbn.
  - destruct o as [key|key value|key value|key]; cbn;
      autounfold with kvs; cbn; split_lookups; cbn;
      destruct (decide (key = k)) as [->|Hne];
      rewrite ?lookup_insert_eq, ?lookup_delete_eq,
        ?lookup_insert_ne, ?lookup_delete_ne by done;
      intros H Hc; eauto;
      try (by destruct Hc); try (apply H; by eauto).
  - unfold V1.ClearExpiredKeys_pass.
    rewrite sweep_pass_store, sweep_pass_cache.
    destruct (data (kvs sp) !! k) as [v|] eqn:E.
    + destruct (expired _ _ v); [intros _ [? ?]; done|eauto].
    + auto.
Qed.

Lemma V1_history_cache_within_store (h : list (Z * act)) (sp : ServerProxy) :
  dom (cache sp) ⊆ dom (data (kvs sp)) →
  dom (cache (V1.history h sp)) ⊆ dom (data (kvs (V1.history h sp))).
Proof.
  revert sp. induction h as [|e h IH]; intros sp H; [done|].
  cbn. apply IH. by apply V1_play_cache_within_store.
Qed.

(** In [kvs-server.go], when requests and passes run one after another from
    the start of the server, the cache never holds a key the store does not
    hold; so a GET of a key absent from the store is a miss: it returns the
    value ["NOT_FOUND"] and changes nothing. *)
Theorem V1_no_phantom_hit
    (h : list (Z * act)) (clk : nat → Z) (key : string) :
  data (kvs (V1.history h V1.fresh)) !! key = None →
  dom (cache (V1.history h V1.fresh))
    ⊆ dom (data (kvs (V1.history h V1.fresh)))
  ∧ V1.ServerProxy_GET clk (V1.history h V1.fresh) key
    = (("NOT_FOUND", true), V1.history h V1.fresh).
Proof.
  intros Hs.
  assert (Hinv : dom (cache (V1.history h V1.fresh))
                 ⊆ dom (data (kvs (V1.history h V1.fresh)))).
  { apply V1_history_cache_within_store. cbn. set_solver. }
  split; [done|].
  assert (Hc : cache (V1.history h V1.fresh) !! key = None).
  { apply not_elem_of_dom. intros Hin. apply Hinv in Hin.
    by apply not_elem_of_dom in Hs. }
  autounfold with kvs. by rewrite Hc, Hs.
Qed.

Lemma V1_no_phantom_hit_witness :
  let h := [(1, Serve (SET "k" "v")); (2, Serve (GET "k"));
            (3, Serve (DELETE "k"))] in
  V1.ServerProxy_GET (at_instant 4) (V1.history h V1.fresh) "k"
  = (("NOT_FOUND", true), V1.history h V1.fresh).
Proof.
  intros h.
  exact (proj2 (V1_no_phantom_hit h (at_instant 4) "k" eq_refl)).
Defined.

(** In [kvs-server.go], an UPDATE of a key the store holds succeeds, and the
    GET that follows returns the new value, whether the key was cached or
    not; the store and, when the key was cached, the cache hold the new
    value. *)
Theorem V1_UPDATE_then_GET
    (clk clk' : nat → Z) (sp : ServerProxy) (key value : string) :
  is_Some (data (kvs sp) !! key) →
  (V1.ServerProxy_UPDATE clk sp key value).1 = true
  ∧ (V1.ServerProxy_GET clk' (V1.ServerProxy_UPDATE clk sp key value).2
       key).1 = (value, true)
  ∧ data (kvs (V1.ServerProxy_UPDATE clk sp key value).2) !! key
    = Some (KeyValue.mk value (clk 0%nat))
  ∧ cache (V1.ServerProxy_UPDATE clk sp key value).2 !! key
    = (λ _, KeyValue.mk value (clk 1%nat)) <$> cache sp !! key.
Proof.
  intros [e He]. autounfold with kvs. rewrite He.
  destruct (cache sp !! key) as [c|] eqn:Hc; cbn;
    rewrite ?lookup_insert_eq, ?Hc; cbn; rewrite ?lookup_insert_eq; done.
Qed.

Lemma V1_UPDATE_then_GET_witness :
  let sp := (V1.ServerProxy_GET (at_instant 2)
               (V1.ServerProxy_SET (at_instant 1) V1.fresh "k" "a").2
               "k").2 in
  (V1.ServerProxy_GET (at_instant 4)
     (V1.ServerProxy_UPDATE (at_instant 3) sp "k" "b").2 "k").1
  = ("b", true).
Proof.
  intros sp.
  refine (proj1 (proj2 (V1_UPDATE_then_GET (at_instant 3) (at_instant 4)
                          sp "k" "b" _))).
  vm_compute. eauto.
Defined.

Lemma V1_play_keeps_cached (e : Z * act) (sp : ServerProxy) (k : string)
    (entry : KeyValue.t) :
  keeps_cached k e.2 = true →
  cache sp !! k = Some entry → cache (V1.play e sp) !! k = Some entry.
Proof.
  intros Hk Hc. destruct e as [t [o|]]; [|done]. unfold V1.play. cbn.
  destruct o as [key|key value|key value|key]; cbn in *;
    try (apply negb_true_iff, String.eqb_neq in Hk);
    autounfold with kvs; cbn; split_lookups; cbn;
    rewrite ?lookup_insert_ne, ?lookup_delete_ne by done; try done.
  destruct (decide (key = k)) as [->|Hne]; [congruence|].
  by rewrite lookup_insert_ne.
Qed.

(** In [kvs-server.go], once a value is cached for a key, GET returns that
    value however many SETs of the key follow: through any sequence of GETs,
    SETs, and UPDATEs and DELETEs of other keys, the cache entry stays and
    GET answers it, whatever the store holds by then. *)
Theorem V1_cached_value_outlives_SET
    (h : list (Z * act)) (clk : nat → Z) (sp : ServerProxy) (key : string)
    (entry : KeyValue.t) :
  cache sp !! key = Some entry →
  Forall (λ e, keeps_cached key e.2 = true) h →
  cache (V1.history h sp) !! key = Some entry
  ∧ V1.ServerProxy_GET clk (V1.history h sp) key
    = ((KeyValue.Value entry, true), V1.history h sp).
Proof.
  intros Hc Hh.
  assert (H : cache (V1.history h sp) !! key = Some entry).
  { revert sp Hc. induction Hh as [|e h He Hh IH]; intros sp Hc; [done|].
    cbn. apply IH. by apply V1_play_keeps_cached. }
  split; [done|]. unfold V1.ServerProxy_GET. by rewrite H.
Qed.

Lemma V1_cached_value_outlives_SET_witness :
  let sp := (V1.ServerProxy_GET (at_instant 2)
               (V1.ServerProxy_SET (at_instant 1) V1.fresh "k" "a").2
               "k").2 in
  let h := [(3, Serve (SET "k" "b")); (4, Serve (GET "k"));
            (5, Serve (SET "k" "c")); (6, Serve (UPDATE "other" "x"))] in
  (V1.ServerProxy_GET (at_instant 7) (V1.history h sp) "k").1 = ("a", true)
  ∧ V1.KeyValueStore_GET (kvs (V1.history h sp)) "k" = ("c", true).
Proof.
  intros sp h. split; [|by vm_compute].
  assert (Hh : Forall (λ e : Z * act, keeps_cached "k" e.2 = true) h)
    by (repeat constructor).
  pose proof (proj2 (V1_cached_value_outlives_SET h (at_instant 7) sp "k"
                       (KeyValue.mk "a" 2) eq_refl Hh)) as H.
  by rewrite H.
Defined.

(** ** The proxy of [kvs_server.go] *)

Lemma V2_history_cache_empty (h : list (Z * act)) (sp : ServerProxy) :
  cache sp = ∅ → cache (V2.history h sp) = ∅.
Proof.
  revert sp. induction h as [|e h IH]; intros sp H; [done|].
  cbn. apply IH. by apply V2_cache_stays_empty.
Qed.

(** In [kvs_server.go], when requests and passes run one after another from
    the start of the server, the cache stays empty: every GET is a miss and
    is answered from the store. *)
Theorem V2_cache_is_never_filled
    (h : list (Z * act)) (clk : nat → Z) (key : string) :
  cache (V2.history h V2.fresh) = ∅
  ∧ V2.ServerProxy_GET clk (V2.history h V2.fresh) key
    = ((V2.KeyValueStore_GET (kvs (V2.history h V2.fresh)) key).1, true,
       V2.history h V2.fresh).
Proof.
  assert (H : cache (V2.history h V2.fresh) = ∅)
    by (by apply V2_history_cache_empty).
  split; [done|]. unfold V2.ServerProxy_GET. rewrite H, lookup_empty.
  unfold V2.KeyValueStore_GET.
  by destruct (data (kvs (V2.history h V2.fresh)) !! key).
Qed.

(** In [kvs_server.go], whatever requests and passes came before, a GET
    right after a SET returns the value set, and the last of two SETs of a
    key is the one read. *)
Theorem V2_GET_after_SET
    (h : list (Z * act)) (clk1 clk2 clk3 : nat → Z) (key v1 v2 : string) :
  let sp := V2.history h V2.fresh in
  (V2.ServerProxy_GET clk2 (V2.ServerProxy_SET clk1 sp key v1).2 key).1
  = (v1, true)
  ∧ (V2.ServerProxy_GET clk3
       (V2.ServerProxy_SET clk2 (V2.ServerProxy_SET clk1 sp key v1).2
          key v2).2 key).1
    = (v2, true).
Proof.
  intros sp.
  assert (H : cache sp !! key = None).
  { unfold sp. by rewrite V2_history_cache_empty, lookup_empty. }
  split.
  - by apply V2_get_after_set_on_miss.
  - by apply V2_get_after_set_on_miss.
Qed.

(** In [kvs_server.go] the proxy refuses every UPDATE and every DELETE: the
    handler answers the message ["VALUE_NOT_EXIST"] with [Success = false]
    and the store and the cache are left as they were, whether the key is
    stored or not. *)
Theorem V2_UPDATE_and_DELETE_are_refused
    (clk : nat → Z) (sp : ServerProxy) (key value : string) :
  V2.handleConnection clk (Some (Request.mk "UPDATE" key value)) sp
  = (V2.mkConn [V2.Response.mk "" "VALUE_NOT_EXIST" false false] true, sp)
  ∧ V2.handleConnection clk (Some (Request.mk "DELETE" key value)) sp
    = (V2.mkConn [V2.Response.mk "" "VALUE_NOT_EXIST" false false] true, sp).
Proof.
  unfold V2.handleConnection. cbn.
  by rewrite V2_update_never_updates, V2_delete_never_deletes.
Qed.

Lemma V2_serve_keeps_entries (o : op) clk (sp : ServerProxy) (k : string) :
  is_Some (data (kvs sp) !! k) →
  is_Some (data (kvs (V2.serve o clk sp)) !! k).
Proof.
  intros H. destruct o as [key|key value|key value|key]; cbn.
  - autounfold with kvs. by split_lookups.
  - autounfold with kvs. cbn. destruct (decide (key = k)) as [->|Hne].
    + rewrite lookup_insert_eq. eauto.
    + by rewrite lookup_insert_ne.
  - by rewrite V2_update_never_updates.
  - by rewrite V2_delete_never_deletes.
Qed.

(** In [kvs_server.go] no request removes an entry from the store: through
    any sequence of requests without a pass of the sweeper, a key that is
    stored stays stored. *)
Theorem V2_only_the_sweeper_removes
    (h : list (Z * act)) (sp : ServerProxy) (key : string) :
  Forall (λ e, is_sweep e.2 = false) h →
  is_Some (data (kvs sp) !! key) →
  is_Some (data (kvs (V2.history h sp)) !! key).
Proof.
  intros Hh. revert sp. induction Hh as [|e h He Hh IH]; intros sp Hs;
    [done|].
  cbn. apply IH. destruct e as [t [o|]]; [|done].
  unfold V2.play. cbn. by apply V2_serve_keeps_entries.
Qed.

Lemma V2_only_the_sweeper_removes_witness :
  let sp := (V2.ServerProxy_SET (at_instant 1) V2.fresh "k" "v").2 in
  let h := [(2, Serve (DELETE "k")); (3, Serve (UPDATE "k" "w"));
            (4, Serve (GET "k"))] in
  is_Some (data (kvs (V2.history h sp)) !! "k").
Proof.
  intros sp h.
  apply (V2_only_the_sweeper_removes h sp "k").
  - repeat constructor.
  - vm_compute. eauto.
Defined.

(** ** The handler *)

(** The handler always closes the connection, and sends one response when
    the request could be decoded and none when it could not, whatever the
    action, in both programs; after a decoding error the store and the cache
    are as before. *)
Theorem handler_sends_at_most_one_response
    (clk : nat → Z) (decoded : option Request.t) (sp : ServerProxy) :
  V1.closed (V1.handleConnection clk decoded sp).1 = true
  ∧ V2.closed (V2.handleConnection clk decoded sp).1 = true
  ∧ length (V1.sent (V1.handleConnection clk decoded sp).1)
    = match decoded with Some _ => 1%nat | None => 0%nat end
  ∧ length (V2.sent (V2.handleConnection clk decoded sp).1)
    = match decoded with Some _ => 1%nat | None => 0%nat end
  ∧ V1.handleConnection clk None sp = (V1.mkConn [] true, sp)
  ∧ V2.handleConnection clk None sp = (V2.mkConn [] true, sp).
Proof.
  destruct decoded as [[action key value]|]; [|done].
  unfold V1.handleConnection, V2.handleConnection. cbn.
  repeat match goal with
         | |- context [if ?b then _ else _] => destruct b
         | |- context [let '(_, _) := ?x in _] => destruct x as [[] ?]
         | |- context [let '(_, _) := ?x in _] => destruct x as [? ?]
         end; done.
Qed.

(** The handler of [kvs-server.go] reports every DELETE as a success: the
    response has [Success = true] whether or not the key was stored, in
    which case the proxy's DELETE returned an error that the handler drops;
    the response of an UPDATE tells whether the key was stored. *)
Theorem V1_handler_DELETE_always_succeeds
    (clk : nat → Z) (sp : ServerProxy) (key value : string) :
  V1.sent (V1.handleConnection clk (Some (Request.mk "DELETE" key value))
             sp).1
  = [V1.Response.mk "" false true]
  ∧ ((V1.ServerProxy_DELETE sp key).1
     = if bool_decide (key ∈ dom (data (kvs sp))) then None
       else Some ("key '" +:+ key +:+ "' not found"))
  ∧ V1.sent (V1.handleConnection clk (Some (Request.mk "UPDATE" key value))
               sp).1
    = [V1.Response.mk "" false (bool_decide (key ∈ dom (data (kvs sp))))].
Proof.
  unfold V1.handleConnection. cbn. autounfold with kvs.
  destruct (data (kvs sp) !! key) as [e|] eqn:E; cbn.
  - assert (Hin : key ∈ dom (data (kvs sp))) by (apply elem_of_dom; eauto).
    by rewrite !(bool_decide_eq_true_2 _ Hin).
  - assert (Hin : key ∉ dom (data (kvs sp))) by (by apply not_elem_of_dom).
    by rewrite !(bool_decide_eq_false_2 _ Hin).
Qed.

(** ** The client *)

(** Through a working connection to the server of [kvs-server.go], the
    client's [SendRequest] returns the value and [true] for every GET, also
    of a key that is not stored, and the empty string and [false] for every
    other action, whether the server carried it out or not; it returns the
    same empty string and [false] when the connection, the encoding or the
    decoding fails. *)
Theorem Client_SendRequest_results
    (clk : nat → Z) (sp : ServerProxy) (action key value : string)
    (dial_ok encode_ok : bool) (reply : option V1.Response.t) :
  (Client.exchange clk action key value sp).1
  = (if String.eqb action "GET"
     then ((V1.ServerProxy_GET clk sp key).1.1, true)
     else ("", false))
  ∧ (Client.exchange clk action key value sp).2
    = (V1.handleConnection clk (Some (Request.mk action key value)) sp).2
  ∧ (dial_ok && encode_ok = false →
     Client.SendRequest dial_ok encode_ok reply = ("", false))
  ∧ Client.SendRequest dial_ok encode_ok None = ("", false).
Proof.
  split; [|split; [|split]].
  - unfold Client.exchange, V1.handleConnection. cbn.
    destruct (String.eqb action "GET").
    { pose proof (V1_GET_found clk sp key) as Hf.
      destruct (V1.ServerProxy_GET clk sp key) as [[v ok] p]. cbn in *.
      by subst. }
    destruct (String.eqb action "SET"); [done|].
    destruct (String.eqb action "DELETE").
    { by destruct (V1.ServerProxy_DELETE sp key). }
    destruct (String.eqb action "UPDATE"); [|done].
    by destruct (V1.ServerProxy_UPDATE clk sp key value).
  - unfold Client.exchange.
    by destruct (V1.handleConnection clk _ sp).
  - unfold Client.SendRequest. by destruct dial_ok, encode_ok.
  - unfold Client.SendRequest. by destruct dial_ok, encode_ok.
Qed.

(** ** [main] *)

Lemma V1_main_loop (accepts : list (option nat)) (started : list goroutine) :
  for_loop V1_main_body accepts started
  = (length accepts,
     (started ++ (accepted_connections accepts ≫= λ conn,
                    [go_handleConnection conn; go_ClearExpiredKeys]))%list).
Proof.
  revert started. induction accepts as [|[conn|] rest IH]; intros started.
  - cbn. by rewrite app_nil_r.
  - cbn [for_loop V1_main_body]. rewrite IH. cbn. by rewrite <- app_assoc.
  - cbn [for_loop V1_main_body]. by rewrite IH.
Qed.

Lemma V2_main_loop (accepts : list (option nat)) (started : list goroutine) :
  for_loop V2_main_body accepts started
  = (length accepts,
     (started
      ++ (go_handleConnection <$> accepted_connections accepts))%list).
Proof.
  revert started. induction accepts as [|[conn|] rest IH]; intros started.
  - cbn. by rewrite app_nil_r.
  - cbn [for_loop V2_main_body]. rewrite IH. cbn. by rewrite <- app_assoc.
  - cbn [for_loop V2_main_body]. by rewrite IH.
Qed.

(** When the listener is up, [main] goes through every outcome of
    [Accept], failed or not, and starts one handler per accepted connection,
    in both programs.  [kvs-server.go] also starts one sweeper per accepted
    connection, so as many sweepers run as connections were accepted;
    [kvs_server.go] starts one sweeper and one snapshot writer, once. *)
Theorem main_started_goroutines (accepts : list (option nat)) :
  V1_main true accepts
  = (length accepts,
     accepted_connections accepts ≫= λ conn,
       [go_handleConnection conn; go_ClearExpiredKeys])
  ∧ V2_main true accepts
    = (length accepts,
       ([go_ClearExpiredKeys; go_BackupKeyValueStore]
        ++ (go_handleConnection <$> accepted_connections accepts))%list)
  ∧ length (filter (λ g, g = go_ClearExpiredKeys) (V1_main true accepts).2)
    = length (accepted_connections accepts)
  ∧ length (filter (λ g, g = go_ClearExpiredKeys) (V2_main true accepts).2)
    = 1%nat
  ∧ V1_main false accepts = (0%nat, [])
  ∧ V2_main false accepts = (0%nat, []).
Proof.
  unfold V1_main, V2_main. cbn [negb].
  rewrite V1_main_loop, V2_main_loop. cbn [app fst snd].
  repeat split.
  - induction (accepted_connections accepts) as [|conn rest IH]; [done|].
    rewrite bind_cons, filter_app, length_app, IH.
    rewrite filter_cons_False by done.
    by rewrite filter_cons_True by done.
  - rewrite filter_cons_True by done. rewrite filter_cons_False by done.
    cbn [length]. f_equal.
    induction (accepted_connections accepts) as [|conn rest IH]; [done|].
    rewrite fmap_cons. by rewrite filter_cons_False.
Qed.

(** ** More on the sweeper *)

(** A pass of the sweeper only removes: what is left in the store and in
    the cache was there before, unchanged; the keys evicted from the cache
    are among the keys removed from the store; and a second pass with the
    same clock readings changes nothing. *)
Theorem sweep_pass_only_removes
    (TTL : Z) (clk : string → Z) (sp : ServerProxy) :
  data (kvs (sweep_pass TTL clk sp)) ⊆ data (kvs sp)
  ∧ cache (sweep_pass TTL clk sp) ⊆ cache sp
  ∧ ttl (kvs (sweep_pass TTL clk sp)) = ttl (kvs sp)
  ∧ dom (cache sp) ∖ dom (cache (sweep_pass TTL clk sp))
    ⊆ dom (data (kvs sp)) ∖ dom (data (kvs (sweep_pass TTL clk sp)))
  ∧ sweep_pass TTL clk (sweep_pass TTL clk sp) = sweep_pass TTL clk sp.
Proof.
  split; [|split; [|split; [|split]]].
  - apply map_subseteq_spec. intros k v. rewrite sweep_pass_store.
    destruct (data (kvs sp) !! k) as [e|]; [|done].
    by destruct (expired TTL (clk k) e).
  - apply map_subseteq_spec. intros k v. rewrite sweep_pass_cache.
    destruct (data (kvs sp) !! k) as [e|]; [|done].
    by destruct (expired TTL (clk k) e).
  - apply sweep_pass_ttl.
  - intros k. rewrite !elem_of_difference, !elem_of_dom.
    rewrite sweep_pass_store, sweep_pass_cache.
    destruct (data (kvs sp) !! k) as [e|]; [|by intros [? ?]].
    destruct (expired TTL (clk k) e); [|by intros [? ?]].
    intros _. split; [eauto|]. by intros [? ?].
  - assert (Hd : data (kvs (sweep_pass TTL clk (sweep_pass TTL clk sp)))
                 = data (kvs (sweep_pass TTL clk sp))).
    { apply map_eq. intros k. rewrite !sweep_pass_store.
      destruct (data (kvs sp) !! k) as [e|]; [|done].
      destruct (expired TTL (clk k) e) eqn:E; [done|]. by rewrite E. }
    assert (Hc : cache (sweep_pass TTL clk (sweep_pass TTL clk sp))
                 = cache (sweep_pass TTL clk sp)).
    { apply map_eq. intros k. rewrite !sweep_pass_cache, !sweep_pass_store.
      destruct (data (kvs sp) !! k) as [e|]; [|done].
      destruct (expired TTL (clk k) e) eqn:E; [done|]. by rewrite E. }
    pose proof (sweep_pass_ttl TTL clk (sweep_pass TTL clk sp)) as Ht.
    destruct (sweep_pass TTL clk (sweep_pass TTL clk sp)) as [[d t] c].
    destruct (sweep_pass TTL clk sp) as [[d' t'] c'].
    cbn in *. by subst.
Qed.

Lemma V1_play_leaves_orphan (e : Z * act) (sp : ServerProxy) (k : string)
    (entry : KeyValue.t) :
  leaves_orphan k e.2 = true →
  data (kvs sp) !! k = None → cache sp !! k = Some entry →
  data (kvs (V1.play e sp)) !! k = None
  ∧ cache (V1.play e sp) !! k = Some entry.
Proof.
  intros Hk Hs Hc. destruct e as [t [o|]]; unfold V1.play; cbn.
  - destruct o as [key|key value|key value|key]; cbn in *;
      try (apply negb_true_iff, String.eqb_neq in Hk).
    + autounfold with kvs. destruct (decide (key = k)) as [->|Hne].
      * by rewrite Hc.
      * split_lookups; cbn; by rewrite ?lookup_insert_ne.
    + autounfold with kvs. cbn. by rewrite lookup_insert_ne.
    + autounfold with kvs. destruct (decide (key = k)) as [->|Hne].
      * by rewrite Hs.
      * split_lookups; cbn; by rewrite ?lookup_insert_ne.
    + autounfold with kvs. split_lookups; cbn;
        by rewrite ?lookup_delete_ne.
  - unfold V1.ClearExpiredKeys_pass.
    by rewrite sweep_pass_store, sweep_pass_cache, Hs.
Qed.

(** In [kvs-server.go] the sweeper never evicts a cache entry whose key the
    store does not hold, however old it is: such an entry stays through
    every pass of the sweeper and every request other than a SET or a
    DELETE of its key, and GET keeps answering it. *)
Theorem V1_orphan_cache_entry_is_never_swept
    (h : list (Z * act)) (clk : nat → Z) (sp : ServerProxy) (key : string)
    (entry : KeyValue.t) :
  data (kvs sp) !! key = None → cache sp !! key = Some entry →
  Forall (λ e, leaves_orphan key e.2 = true) h →
  data (kvs (V1.history h sp)) !! key = None
  ∧ cache (V1.history h sp) !! key = Some entry
  ∧ (V1.ServerProxy_GET clk (V1.history h sp) key).1
    = (KeyValue.Value entry, true).
Proof.
  intros Hs Hc Hh.
  assert (H : data (kvs (V1.history h sp)) !! key = None
              ∧ cache (V1.history h sp) !! key = Some entry).
  { revert sp Hs Hc. induction Hh as [|e h He Hh IH]; intros sp Hs Hc;
      [done|].
    cbn. destruct (V1_play_leaves_orphan e sp key entry He Hs Hc).
    by apply IH. }
  destruct H as [H1 H2]. repeat split; try done.
  unfold V1.ServerProxy_GET. by rewrite H2.
Qed.

Lemma V1_orphan_cache_entry_is_never_swept_witness :
  let sp := mkServerProxy V1.NewKeyValueStore
              {[ "k" := KeyValue.mk "v" 0 ]} in
  let h := [(100 * time.Second, Sweep); (101 * time.Second, Serve (GET "k"));
            (102 * time.Second, Serve (UPDATE "k" "w"));
            (200 * time.Second, Sweep)] in
  (V1.ServerProxy_GET (at_instant 0) (V1.history h sp) "k").1 = ("v", true).
Proof.
  intros sp h.
  assert (Hh : Forall (λ e : Z * act, leaves_orphan "k" e.2 = true) h)
    by (repeat constructor).
  exact (proj2 (proj2 (V1_orphan_cache_entry_is_never_swept h (at_instant 0)
                         sp "k" (KeyValue.mk "v" 0) eq_refl eq_refl Hh))).
Defined.

(** ** More on snapshots *)

(** After any number of cycles, the backup file holds what the last cycle
    whose file creation succeeded left in it: the document of the map that
    cycle encoded, or no document when its encoding failed; when no creation
    succeeded the files are as before.  No other file is ever touched. *)
Theorem backup_file_after_the_loop
    (cycles : list V2.cycle) (fs : gmap string V2.file) :
  (V2.BackupKeyValueStore cycles fs).2
  = match last (filter (λ c, V2.create_ok (V2.cycle_io c) = true) cycles) with
    | None => fs
    | Some c => <[V2.BackupFileName := written_by c]> fs
    end.
Proof.
  unfold V2.BackupKeyValueStore.
  induction cycles as [|c cycles IH] using rev_ind; [done|].
  rewrite for_loop_app by apply backup_body_continues.
  rewrite IH, filter_app. cbn [for_loop].
  pose proof (backup_body_continues c) as Hb.
  unfold V2.BackupKeyValueStore_body in *. unfold written_by.
  destruct (V2.create_ok (V2.cycle_io c)) eqn:Hc; cbn [negb].
  - rewrite filter_cons_True by done. rewrite filter_nil, last_snoc.
    destruct (last (filter _ cycles)) as [c'|];
      destruct (V2.encode_ok (V2.cycle_io c)); cbn;
      by rewrite ?insert_insert_eq.
  - rewrite filter_cons_False by (by rewrite Hc).
    rewrite filter_nil, app_nil_r. by destruct (last (filter _ cycles)).
Qed.

(** ** Operations as goroutines *)

Lemma exec_call {A B : Type} (p : prog A) (f : A → prog B)
    (sp : ServerProxy) :
  exec (call p f) sp = exec (f (exec p sp).1) (exec p sp).2.
Proof.
  revert sp. induction p as [r|m o k IH|key k IH|key k IH|key v k IH
                            |key v k IH]; intros sp; cbn; auto.
Qed.

Lemma V1_op_alone clk o sp : exec (V1_op_prog clk o) sp = V1_op clk o sp.
Proof.
  destruct o; cbn [V1_op_prog V1_op]; rewrite exec_call;
    rewrite ?V1_GET_alone, ?V1_SET_alone, ?V1_UPDATE_alone, ?V1_DELETE_alone;
    cbn [exec];
    match goal with |- context [let '(_, _) := ?x in _] => by destruct x end.
Qed.

Lemma V2_op_alone clk o sp : exec (V2_op_prog clk o) sp = V2_op clk o sp.
Proof.
  destruct o; cbn [V2_op_prog V2_op]; rewrite exec_call;
    rewrite ?V2_GET_alone, ?V2_SET_alone, ?V2_UPDATE_alone, ?V2_DELETE_alone;
    cbn [exec];
    match goal with |- context [let '(_, _) := ?x in _] => by destruct x end.
Qed.

Lemma critical_call {A B : Type} (p : prog A) (f : A → B) :
  critical sp_mu p → critical sp_mu (call p (λ r, Ret (f r))).
Proof.
  induction 1; cbn; constructor; auto.
Qed.

Lemma holds_throughout_call {A B : Type} (p : prog A) (f : A → B) :
  holds_throughout sp_mu p →
  holds_throughout sp_mu (call p (λ r, Ret (f r))).
Proof.
  intros (k & -> & Hk). eexists. split; [reflexivity|].
  by apply critical_call.
Qed.

Lemma V2_op_locked clk o : holds_throughout sp_mu (V2_op_prog clk o).
Proof.
  destruct o; apply holds_throughout_call;
    auto using V2_GET_locked, V2_SET_locked, V2_UPDATE_locked,
      V2_DELETE_locked.
Qed.

Lemma solo_run {R : Type} (tid : nat) (p : prog R) :
  ∀ sp L threads n r sp' L',
    threads !! tid = Some p →
    solo tid p sp L = Some (n, r, sp', L') →
    run (replicate n tid) (mkConfig sp L threads)
    = Some (mkConfig sp' L' (<[tid := Ret r]> threads)).
Proof.
  induction p as [r0|m o k IH|key k IH|key k IH|key v k IH|key v k IH];
    intros sp L threads n r sp' L' Hp Hsolo; cbn in Hsolo.
  - simplify_eq. cbn. by rewrite list_insert_id.
  - destruct (sync_step tid m o L) as [L1|] eqn:HL; [|done]. cbn in Hsolo.
    destruct (solo tid k sp L1) as [[[[n1 r1] sp1] L2]|] eqn:Hk; [|done].
    cbn in Hsolo. simplify_eq. cbn. unfold step at 1. cbn. rewrite Hp, HL.
    cbn. erewrite IH; [|by apply list_lookup_insert_eq;
                         eapply lookup_lt_Some|done].
    by rewrite list_insert_insert_eq.
  - destruct (solo tid (k (cache sp !! key)) sp L)
      as [[[[n1 r1] sp1] L2]|] eqn:Hk; [|done].
    cbn in Hsolo. simplify_eq. cbn. unfold step at 1. cbn. rewrite Hp.
    cbn. erewrite IH; [|by apply list_lookup_insert_eq;
                         eapply lookup_lt_Some|done].
    by rewrite list_insert_insert_eq.
  - destruct (solo tid (k (data (kvs sp) !! key)) sp L)
      as [[[[n1 r1] sp1] L2]|] eqn:Hk; [|done].
    cbn in Hsolo. simplify_eq. cbn. unfold step at 1. cbn. rewrite Hp.
    cbn. erewrite IH; [|by apply list_lookup_insert_eq;
                         eapply lookup_lt_Some|done].
    by rewrite list_insert_insert_eq.
  - match type of Hsolo with context [solo tid k ?s L] =>
      destruct (solo tid k s L) as [[[[n1 r1] sp1] L2]|] eqn:Hk; [|done] end.
    cbn in Hsolo. simplify_eq. cbn. unfold step at 1. cbn. rewrite Hp.
    cbn. erewrite IH; [|by apply list_lookup_insert_eq;
                         eapply lookup_lt_Some|done].
    by rewrite list_insert_insert_eq.
  - match type of Hsolo with context [solo tid k ?s L] =>
      destruct (solo tid k s L) as [[[[n1 r1] sp1] L2]|] eqn:Hk; [|done] end.
    cbn in Hsolo. simplify_eq. cbn. unfold step at 1. cbn. rewrite Hp.
    cbn. erewrite IH; [|by apply list_lookup_insert_eq;
                         eapply lookup_lt_Some|done].
    by rewrite list_insert_insert_eq.
Qed.

Ltac solo_to_the_end :=
  intros; repeat match goal with sp : ServerProxy |- _ =>
    destruct sp as [[? ?] ?] end;
  match goal with o : op |- _ => destruct o end;
  unfold V1_op_prog, V2_op_prog, V1_op, V2_op;
  autounfold with kvs; cbn; split_lookups;
  eexists; vm_compute; reflexivity.

Lemma V1_op_solo clk o sp :
  ∃ n, solo 0 (V1_op_prog clk o) sp unlocked
       = Some (n, (V1_op clk o sp).1, (V1_op clk o sp).2, unlocked).
Proof. solo_to_the_end. Qed.

Lemma V2_op_solo clk o sp :
  ∃ n, solo 0 (V2_op_prog clk o) sp unlocked
       = Some (n, (V2_op clk o sp).1, (V2_op clk o sp).2, unlocked).
Proof. solo_to_the_end. Qed.

(** Every operation of the proxy, of either program, run by a goroutine
    with no other goroutine taking a step, goes through all its mutex calls
    without waiting, returns what the operation returns, and leaves both
    mutexes unlocked, on every path. *)
Theorem operations_release_their_locks
    (clk : nat → Z) (o : op) (sp : ServerProxy) :
  ∃ n1 n2,
    run (replicate n1 0%nat) (mkConfig sp unlocked [V1_op_prog clk o])
    = Some (mkConfig (V1_op clk o sp).2 unlocked [Ret (V1_op clk o sp).1])
    ∧ run (replicate n2 0%nat) (mkConfig sp unlocked [V2_op_prog clk o])
      = Some (mkConfig (V2_op clk o sp).2 unlocked
                [Ret (V2_op clk o sp).1]).
Proof.
  destruct (V1_op_solo clk o sp) as [n1 H1].
  destruct (V2_op_solo clk o sp) as [n2 H2].
  exists n1, n2. split.
  - by apply (solo_run 0 _ sp unlocked [V1_op_prog clk o]) in H1.
  - by apply (solo_run 0 _ sp unlocked [V2_op_prog clk o]) in H2.
Qed.

(** ** Serializable runs *)

Lemma replay_snoc {R : Type} (threads : list (prog R)) order tid sp :
  replay threads (order ++ [tid]) sp
  = replay_one threads (replay threads order sp) tid.
Proof. unfold replay. by rewrite foldl_app. Qed.

Lemma replay_length {R : Type} (threads : list (prog R)) order sp :
  length (replay threads order sp).2 = length threads.
Proof.
  induction order as [|tid order IH] using rev_ind; [done|].
  rewrite replay_snoc. unfold replay_one.
  destruct (threads !! tid); [|done]. cbn. by rewrite length_insert.
Qed.

Lemma replay_pending {R : Type} (threads : list (prog R)) order sp tid :
  tid ∉ order → (replay threads order sp).2 !! tid = threads !! tid.
Proof.
  induction order as [|tid' order IH] using rev_ind; [done|].
  intros Hnot. rewrite replay_snoc. unfold replay_one.
  rewrite not_elem_of_app, list_elem_of_singleton in Hnot.
  destruct Hnot as [Hnot Hne].
  destruct (threads !! tid'); [|by apply IH]. cbn.
  rewrite list_lookup_insert_ne by done. by apply IH.
Qed.

Lemma replay_returned {R : Type} (threads : list (prog R)) order sp tid :
  tid ∈ order → is_Some (threads !! tid) →
  ∃ r, (replay threads order sp).2 !! tid = Some (Ret r).
Proof.
  induction order as [|tid' order IH] using rev_ind;
    [by intros ?%elem_of_nil|].
  intros Hin Hsome. rewrite replay_snoc. unfold replay_one.
  destruct (decide (tid = tid')) as [<-|Hne].
  - destruct Hsome as [p Hp]. rewrite Hp. cbn. eexists.
    apply list_lookup_insert_eq. rewrite replay_length.
    by eapply lookup_lt_Some.
  - apply elem_of_app in Hin as [Hin|Hin%list_elem_of_singleton]; [|done].
    destruct (threads !! tid'); [|by apply IH]. cbn.
    rewrite list_lookup_insert_ne by done. by apply IH.
Qed.

Lemma step_serial {R : Type} (threads : list (prog R)) (sp : ServerProxy)
    (tid : nat) (c c' : config R) (order : list nat) :
  Forall (holds_throughout sp_mu) threads →
  serial_at threads sp c order → step tid c = Some c' →
  ∃ order', serial_at threads sp c' order'.
Proof.
  intros Hall [Hnd Hinv] Hstep. unfold step in Hstep.
  destruct (pool c !! tid) as [p|] eqn:Hp; [|done].
  destruct (sp_holder (mutexes c)) as [holder|] eqn:Hh.
  - (* the mutex is held: only its holder can move *)
    destruct Hinv as (Hnot & p0 & q & Hp0 & Hq & Hpool & Hexec).
    assert (Hlen : (holder < length (replay threads order sp).2)%nat).
    { rewrite replay_length. by eapply lookup_lt_Some. }
    destruct (decide (tid = holder)) as [->|Hne].
    + rewrite Hpool, list_lookup_insert_eq in Hp by done. simplify_eq.
      inversion Hq as [r Hr|m' o k Hm Hk Hr|key k Hk Hr|key k Hk Hr
                      |key v k Hk Hr|key v k Hk Hr]; subst p;
        cbv beta iota in Hstep.
      * cbn in Hstep. rewrite Hh, Nat.eqb_refl in Hstep. cbn in Hstep.
        simplify_eq. exists (order ++ [holder])%list. split.
        { apply NoDup_app. split; [done|]. split; [|apply NoDup_singleton].
          intros x Hx ->%list_elem_of_singleton. done. }
        cbn. rewrite replay_snoc. unfold replay_one. rewrite Hp0.
        rewrite <- Hexec. cbn. by rewrite Hpool, list_insert_insert_eq.
      * destruct m'; [done|].
        destruct (sync_step holder kvs_mu o (mutexes c)) as [L|] eqn:HL;
          [|done].
        cbn in Hstep. simplify_eq. exists order. split; [done|]. cbn.
        rewrite (sync_step_other_mutex _ _ _ _ HL), Hh.
        split; [done|]. exists p0, k. repeat split; try done.
        by rewrite Hpool, list_insert_insert_eq.
      * simplify_eq. exists order. split; [done|]. cbn. rewrite Hh.
        split; [done|]. exists p0, (k (cache (shared c) !! key)).
        repeat split; try done. by rewrite Hpool, list_insert_insert_eq.
      * simplify_eq. exists order. split; [done|]. cbn. rewrite Hh.
        split; [done|]. exists p0, (k (data (kvs (shared c)) !! key)).
        repeat split; try done. by rewrite Hpool, list_insert_insert_eq.
      * simplify_eq. exists order. split; [done|]. cbn. rewrite Hh.
        split; [done|]. exists p0, k.
        repeat split; try done. by rewrite Hpool, list_insert_insert_eq.
      * simplify_eq. exists order. split; [done|]. cbn. rewrite Hh.
        split; [done|]. exists p0, k.
        repeat split; try done. by rewrite Hpool, list_insert_insert_eq.
    + exfalso. rewrite Hpool, list_lookup_insert_ne in Hp by done.
      destruct (decide (tid ∈ order)) as [Hin|Hout].
      * destruct (replay_returned threads order sp tid Hin) as [r Hr].
        { apply lookup_lt_is_Some. rewrite <- (replay_length _ order sp).
          by eapply lookup_lt_Some. }
        rewrite Hr in Hp. by simplify_eq.
      * rewrite replay_pending in Hp by done.
        rewrite Forall_lookup in Hall.
        destruct (Hall _ _ Hp) as (k & -> & _).
        cbn in Hstep. by rewrite Hh in Hstep.
  - (* the mutex is free: the goroutine starts its operation *)
    assert (Hpool : pool c = (replay threads order sp).2) by (by rewrite Hinv).
    assert (Hshared : shared c = (replay threads order sp).1)
      by (by rewrite Hinv).
    rewrite Hpool in Hp.
    destruct (decide (tid ∈ order)) as [Hin|Hout].
    { destruct (replay_returned threads order sp tid Hin) as [r Hr].
      { apply lookup_lt_is_Some. rewrite <- (replay_length _ order sp).
        by eapply lookup_lt_Some. }
      rewrite Hr in Hp. by simplify_eq. }
    rewrite replay_pending in Hp by done.
    rewrite Forall_lookup in Hall.
    destruct (Hall _ _ Hp) as (k & -> & Hk).
    cbn in Hstep. rewrite Hh in Hstep. cbn in Hstep. simplify_eq.
    exists order. split; [done|]. cbn. split; [done|].
    exists (Sync sp_mu Lock k), k. repeat split; try done.
    + by rewrite Hpool.
    + by rewrite Hshared.
Qed.

Lemma run_serial {R : Type} (threads : list (prog R)) (sp : ServerProxy)
    (schedule : list nat) (c c' : config R) (order : list nat) :
  Forall (holds_throughout sp_mu) threads →
  serial_at threads sp c order → run schedule c = Some c' →
  ∃ order', serial_at threads sp c' order'.
Proof.
  intros Hall. revert c order.
  induction schedule as [|tid rest IH]; intros c order Hinv Hrun.
  - cbn in Hrun. simplify_eq. eauto.
  - cbn in Hrun. destruct (step tid c) as [c1|] eqn:Hstep; [|done].
    cbn in Hrun.
    destruct (step_serial threads sp tid c c1 order Hall Hinv Hstep)
      as [order1 Hinv1].
    eauto.
Qed.

(** When every goroutine runs a program that holds [sp.mu] throughout,
    every interleaved run that ends with [sp.mu] free is a run of whole
    operations one after another: for some order of distinct goroutines,
    the state of the store and the cache is the one reached by running their
    programs alone in that order, each of them has returned the result it
    computes in that order, and the others have not started. *)
Theorem locked_operations_are_serializable {R : Type}
    (threads : list (prog R)) (sp : ServerProxy) (schedule : list nat)
    (c : config R) :
  Forall (holds_throughout sp_mu) threads →
  run schedule (mkConfig sp unlocked threads) = Some c →
  sp_holder (mutexes c) = None →
  ∃ order, NoDup order ∧ replay threads order sp = (shared c, pool c).
Proof.
  intros Hall Hrun Hfree.
  destruct (run_serial threads sp schedule (mkConfig sp unlocked threads)
              c [] Hall) as [order [Hnd H]];
    [by split; [constructor|]|done|].
  rewrite Hfree in H. eauto.
Qed.

Lemma replay_serve_in_order (reqs : list ((nat → Z) * op))
    (order : list nat) (sp : ServerProxy) :
  (replay ((λ r, V2_op_prog r.1 r.2) <$> reqs) order sp).1
  = serve_in_order V2_op reqs order sp.
Proof.
  induction order as [|tid order IH] using rev_ind; [done|].
  rewrite replay_snoc. unfold serve_in_order. rewrite foldl_app. cbn.
  unfold replay_one. rewrite list_lookup_fmap.
  destruct (reqs !! tid) as [[clk o]|]; cbn.
  - rewrite V2_op_alone. do 2 f_equal. apply IH.
  - apply IH.
Qed.

(** In [kvs_server.go], whatever requests the goroutines serve and however
    their steps interleave, when the run ends with [sp.mu] free the store
    and the cache are those reached by serving some of the requests, each
    once, one after another in some order, and the others not at all. *)
Theorem V2_requests_are_serializable
    (reqs : list ((nat → Z) * op)) (sp : ServerProxy) (schedule : list nat)
    (c : config result) :
  run schedule
    (mkConfig sp unlocked ((λ r, V2_op_prog r.1 r.2) <$> reqs)) = Some c →
  sp_holder (mutexes c) = None →
  ∃ order,
    NoDup order
    ∧ shared c = serve_in_order V2_op reqs order sp
    ∧ pool c = (replay ((λ r, V2_op_prog r.1 r.2) <$> reqs) order sp).2.
Proof.
  intros Hrun Hfree.
  destruct (locked_operations_are_serializable
              ((λ r, V2_op_prog r.1 r.2) <$> reqs) sp schedule c)
    as (order & Hnd & Hr); [|done|done|].
  { apply Forall_fmap, Forall_forall. intros [clk o] _. apply V2_op_locked. }
  exists order. split; [done|].
  rewrite <- replay_serve_in_order, Hr. done.
Qed.

Lemma V2_requests_are_serializable_witness :
  let reqs := [(at_instant 1, SET "k" "a"); (at_instant 2, GET "k")] in
  let start :=
    mkConfig V2.fresh unlocked ((λ r, V2_op_prog r.1 r.2) <$> reqs) in
  let c := default start (run [1; 1; 1; 1; 1; 1; 0; 0; 0]%nat start) in
  ∃ order, NoDup order ∧ shared c = serve_in_order V2_op reqs order V2.fresh.
Proof.
  intros reqs start c.
  destruct (V2_requests_are_serializable reqs V2.fresh
              [1; 1; 1; 1; 1; 1; 0; 0; 0]%nat c eq_refl eq_refl)
    as (order & Hnd & Hs & _).
  by exists order.
Defined.

(** ** The sweeper among the goroutines *)

Lemma sweeper_visits {R : Type} TTL clk (todo : list (string * KeyValue.t))
    (sp : ServerProxy) (L : locks) (threads : list (prog R)) :
  server_run TTL clk (replicate (length todo) TheSweeper)
    (mkServer (mkConfig sp L threads) (Sweeping todo))
  = Some (mkServer
            (mkConfig
               (foldl (λ s e, sweep_visit TTL clk e.1 e.2 s) sp todo)
               L threads)
            (Sweeping [])).
Proof.
  revert sp. induction todo as [|[key value] todo IH]; intros sp; [done|].
  cbn. apply IH.
Qed.

Lemma foldl_reverse_visits TTL clk (l : list (string * KeyValue.t))
    (sp : ServerProxy) :
  foldl (λ s e, sweep_visit TTL clk e.1 e.2 s) sp (reverse l)
  = foldr (uncurry (sweep_visit TTL clk)) sp l.
Proof.
  induction l as [|[key value] l IH]; [done|].
  rewrite reverse_cons, foldl_app. cbn. by rewrite IH.
Qed.

Lemma server_run_app {R : Type} TTL clk (s1 s2 : list who) (s : server R) :
  server_run TTL clk (s1 ++ s2) s
  = server_run TTL clk s1 s ≫= server_run TTL clk s2.
Proof.
  revert s. induction s1 as [|w s1 IH]; intros s; [done|].
  cbn. destruct (server_step TTL clk w s); [apply IH|done].
Qed.

(** One iteration of the sweeper during which no other goroutine takes a
    step makes exactly one pass over the store, and leaves both mutexes
    unlocked and the sweeper asleep, ready for the next iteration. *)
Theorem sweeper_iteration_alone {R : Type}
    (TTL : Z) (clk : string → Z) (sp : ServerProxy)
    (threads : list (prog R)) :
  server_run TTL clk
    (replicate (size (data (kvs sp)) + 4) TheSweeper)
    (mkServer (mkConfig sp unlocked threads) Asleep)
  = Some (mkServer (mkConfig (sweep_pass TTL clk sp) unlocked threads)
            Asleep).
Proof.
  replace (size (data (kvs sp)) + 4)%nat
    with (2 + (length (reverse (map_to_list (data (kvs sp)))) + 2))%nat.
  2:{ rewrite length_reverse, length_map_to_list. lia. }
  rewrite !replicate_add.
  rewrite server_run_app. cbn.
  rewrite server_run_app, sweeper_visits. cbn.
  rewrite Nat.eqb_refl. cbn. rewrite Nat.eqb_refl. cbn.
  rewrite foldl_reverse_visits. unfold sweep_pass.
  by rewrite map_fold_foldr.
Qed.

(** A goroutine that has yet to start an operation that locks [sp.mu]
    cannot take a step while [sp.mu] is held. *)
Lemma not_started_is_blocked {R : Type} (tid : nat) (c : config R) :
  match pool c !! tid with
  | Some p => holds_throughout sp_mu p
  | None => True
  end →
  is_Some (sp_holder (mutexes c)) → step tid c = None.
Proof.
  intros Hp [holder Hh]. unfold step.
  destruct (pool c !! tid) as [p|]; [|done].
  destruct Hp as (k & -> & _). cbn. by rewrite Hh.
Qed.

(** In [kvs_server.go] a GET and the sweeper can block each other for
    good.  The sweeper locks [kvs.mu] and then [sp.mu]; GET locks [sp.mu]
    and then, inside the store's GET, read-locks [kvs.mu].  From any state
    reached from the start of the server, when the sweeper has locked
    [kvs.mu] and the GET has locked [sp.mu] and missed the cache, neither
    can take its next step, and no request of any other goroutine can
    start: nothing in the server can move. *)
Theorem V2_GET_and_sweeper_deadlock
    (h : list (Z * act)) (clk : nat → Z) (key : string)
    (reqs : list ((nat → Z) * op)) (TTL : Z) (sclk : string → Z) :
  let threads :=
    V2_op_prog clk (GET key) :: ((λ r, V2_op_prog r.1 r.2) <$> reqs) in
  ∃ s,
    server_run TTL sclk [TheSweeper; Goroutine 0; Goroutine 0]
      (mkServer (mkConfig (V2.history h V2.fresh) unlocked threads) Asleep)
    = Some s
    ∧ (∀ w, server_step TTL sclk w s = None)
    ∧ sweeper s = HoldsKvs
    ∧ mutexes (goroutines s) = mkLocks (Some 0%nat) (Some (length threads)) []
    ∧ (∀ r, pool (goroutines s) !! 0%nat ≠ Some (Ret r))
    ∧ shared (goroutines s) = V2.history h V2.fresh.
Proof.
  intros threads.
  assert (Hc : cache (V2.history h V2.fresh) !! key = None).
  { by rewrite V2_history_cache_empty, lookup_empty. }
  eexists. split.
  - cbn. rewrite Hc. cbn. reflexivity.
  - cbn. repeat split; try done.
    intros [[|tid]|]; cbn; [done| |done].
    rewrite not_started_is_blocked; [done| |by eexists]. cbn.
    destruct (((λ r : (nat → Z) * op, V2_op_prog r.1 r.2) <$> reqs) !! tid)
      as [p|] eqn:Hp; [|done].
    apply list_lookup_fmap_Some in Hp as ([clk' o] & -> & _).
    apply V2_op_locked.
Qed.

(** In [kvs-server.go] a SET or a DELETE and the sweeper can block each
    other in the same way: the sweeper holds [kvs.mu] and waits for
    [sp.mu], the operation holds [sp.mu] and waits for [kvs.mu] inside the
    store's method; from then on neither takes a step. *)
Theorem V1_SET_DELETE_and_sweeper_deadlock
    (sp : ServerProxy) (clk : nat → Z) (o : op) (TTL : Z)
    (sclk : string → Z) :
  (∃ key value, o = SET key value) ∨ (∃ key, o = DELETE key) →
  ∃ schedule s,
    server_run TTL sclk schedule
      (mkServer (mkConfig sp unlocked [V1_op_prog clk o]) Asleep)
    = Some s
    ∧ (∀ w, server_step TTL sclk w s = None)
    ∧ sweeper s = HoldsKvs
    ∧ mutexes (goroutines s) = mkLocks (Some 0%nat) (Some 1%nat) []
    ∧ (∀ r, pool (goroutines s) !! 0%nat ≠ Some (Ret r))
    ∧ data (kvs (shared (goroutines s))) = data (kvs sp).
Proof.
  intros [(key & value & ->)|(key & ->)].
  - exists [TheSweeper; Goroutine 0%nat]. eexists. split; [reflexivity|].
    cbn. repeat split; try done. by intros [[|[|tid]]|].
  - exists [TheSweeper; Goroutine 0%nat; Goroutine 0%nat]. eexists.
    split; [reflexivity|].
    cbn. repeat split; try done. by intros [[|[|tid]]|].
Qed.

Lemma V1_SET_DELETE_and_sweeper_deadlock_witness :
  ∃ schedule s,
    server_run V1.DefaultTTL (λ _, 0) schedule
      (mkServer
         (mkConfig V1.fresh unlocked
            [V1_op_prog (at_instant 1) (SET "k" "v")]) Asleep)
    = Some s
    ∧ (∀ w, server_step V1.DefaultTTL (λ _, 0) w s = None).
Proof.
  destruct (V1_SET_DELETE_and_sweeper_deadlock V1.fresh (at_instant 1)
              (SET "k" "v") V1.DefaultTTL (λ _, 0))
    as (schedule & s & Hrun & Hstuck & _).
  - left. by exists "k", "v".
  - by exists schedule, s.
Defined.

(** ** More on GET and DELETE *)

(** GET is repeatable, in both programs: a second GET of the same key right
    after the first returns the same value and flag, and changes nothing
    more; the first GET changes at most the cache entry of the key. *)
Theorem GET_is_repeatable
    (clk1 clk2 : nat → Z) (sp : ServerProxy) (key key' : string) :
  V1.ServerProxy_GET clk2 (V1.ServerProxy_GET clk1 sp key).2 key
  = ((V1.ServerProxy_GET clk1 sp key).1, (V1.ServerProxy_GET clk1 sp key).2)
  ∧ V2.ServerProxy_GET clk2 (V2.ServerProxy_GET clk1 sp key).2 key
    = ((V2.ServerProxy_GET clk1 sp key).1, (V2.ServerProxy_GET clk1 sp key).2)
  ∧ kvs (V1.ServerProxy_GET clk1 sp key).2 = kvs sp
  ∧ (V2.ServerProxy_GET clk1 sp key).2 = sp
  ∧ cache (V1.ServerProxy_GET clk1 sp key).2 !! key'
    = (if bool_decide (key' = key ∧ cache sp !! key = None)
       then (λ e, KeyValue.mk (KeyValue.Value e) (clk1 0%nat))
              <$> data (kvs sp) !! key
       else cache sp !! key').
Proof.
  destruct sp as [[d t] c]. autounfold with kvs. cbn.
  destruct (c !! key) as [e|] eqn:Hc; cbn.
  - rewrite Hc. repeat split.
    case_bool_decide as H; [by destruct H|done].
  - destruct (d !! key) as [e|] eqn:Hd; cbn.
    + rewrite lookup_insert_eq, Hc, Hd. repeat split.
      case_bool_decide as H.
      * destruct H as [-> _]. by rewrite lookup_insert_eq.
      * rewrite lookup_insert_ne; [done|]. intros <-. by apply H.
    + rewrite Hc, Hd. repeat split.
      case_bool_decide as H; [|done]. destruct H as [-> _]. by rewrite Hc.
Qed.

(** In [kvs-server.go], after a DELETE of a key, stored or not, cached or
    not, the key is in neither map, and the GET that follows is a miss that
    returns the value ["NOT_FOUND"] and changes nothing. *)
Theorem V1_DELETE_then_GET (clk : nat → Z) (sp : ServerProxy) (key : string) :
  data (kvs (V1.ServerProxy_DELETE sp key).2) !! key = None
  ∧ cache (V1.ServerProxy_DELETE sp key).2 !! key = None
  ∧ V1.ServerProxy_GET clk (V1.ServerProxy_DELETE sp key).2 key
    = (("NOT_FOUND", true), (V1.ServerProxy_DELETE sp key).2).
Proof.
  destruct sp as [[d t] c]. autounfold with kvs. cbn.
  destruct (d !! key) as [e|] eqn:Hd; cbn;
    rewrite ?lookup_delete_eq, ?Hd; done.
Qed.

(** ** More on locking *)

(** In [kvs-server.go], for every key the store holds and the cache does
    not, a GET and a DELETE of the key can interleave so that the key ends
    in the cache and not in the store: the GET reads the store, the DELETE
    runs from its first step to its last, and the GET then fills the cache
    with the value it read.  Both operations have returned and both mutexes
    are free. *)
Theorem V1_GET_DELETE_race
    (clk : nat → Z) (sp : ServerProxy) (key : string) (entry : KeyValue.t) :
  data (kvs sp) !! key = Some entry → cache sp !! key = None →
  ∃ c,
    run [0; 0; 0; 0; 1; 1; 1; 1; 1; 1; 1; 0]%nat
      (mkConfig sp unlocked
         [V1_op_prog clk (GET key); V1_op_prog clk (DELETE key)])
    = Some c
    ∧ pool c = [Ret (Value_found (KeyValue.Value entry) true);
                Ret (Error None)]
    ∧ mutexes c = unlocked
    ∧ data (kvs (shared c)) !! key = None
    ∧ cache (shared c) !! key
      = Some (KeyValue.mk (KeyValue.Value entry) (clk 0%nat)).
Proof.
  intros Hd Hc. destruct sp as [[d t] c0]. cbn in Hd, Hc.
  eexists. split.
  - unfold run, step. cbn. rewrite Hc. cbn. rewrite Hd. cbn.
    rewrite bool_decide_eq_true_2 by apply list_elem_of_here. cbn.
    destruct (decide_rel elem_of 0%nat [0%nat]) as [_|Hn];
      [|by exfalso; apply Hn, list_elem_of_here].
    cbn. rewrite Hd. cbn. reflexivity.
  - cbn. repeat split; try done.
    + apply lookup_delete_eq.
    + apply lookup_insert_eq.
Qed.

Lemma V1_GET_DELETE_race_witness :
  let sp := (V1.ServerProxy_SET (at_instant 1) V1.fresh "k" "v").2 in
  ∃ c,
    run [0; 0; 0; 0; 1; 1; 1; 1; 1; 1; 1; 0]%nat
      (mkConfig sp unlocked
         [V1_op_prog (at_instant 2) (GET "k");
          V1_op_prog (at_instant 2) (DELETE "k")])
    = Some c
    ∧ data (kvs (shared c)) !! "k" = None
    ∧ cache (shared c) !! "k" = Some (KeyValue.mk "v" 2).
Proof.
  intros sp.
  destruct (V1_GET_DELETE_race (at_instant 2) sp "k" (KeyValue.mk "v" 1)
              eq_refl eq_refl) as (c & Hrun & _ & _ & Hs & Hc).
  by exists c.
Defined.

(** In [kvs_server.go], whatever requests the goroutines serve and however
    their steps interleave, a goroutine about to read or write one of the
    maps holds [sp.mu], and no two goroutines are inside an operation at
    once. *)
Theorem V2_map_accesses_hold_the_mutex
    (reqs : list ((nat → Z) * op)) (sp : ServerProxy) (schedule : list nat)
    (c : config result) :
  run schedule
    (mkConfig sp unlocked ((λ r, V2_op_prog r.1 r.2) <$> reqs)) = Some c →
  (∀ tid p, pool c !! tid = Some p → is_access p →
     sp_holder (mutexes c) = Some tid)
  ∧ (∀ i j p q, pool c !! i = Some p → pool c !! j = Some q →
       critical sp_mu p → critical sp_mu q → i = j).
Proof.
  intros Hrun. eapply mutual_exclusion; [|exact Hrun].
  apply Forall_fmap, Forall_forall. intros [clk o] _. apply V2_op_locked.
Qed.

Lemma V2_map_accesses_hold_the_mutex_witness :
  let reqs := [(at_instant 1, SET "k" "a"); (at_instant 2, GET "k")] in
  let start :=
    mkConfig V2.fresh unlocked ((λ r, V2_op_prog r.1 r.2) <$> reqs) in
  let c := default start (run [1]%nat start) in
  sp_holder (mutexes c) = Some 1%nat.
Proof.
  intros reqs start c.
  refine (proj1 (V2_map_accesses_hold_the_mutex reqs V2.fresh [1]%nat c
                   eq_refl) 1%nat _ eq_refl _).
  exact I.
Defined.
